(** * A shallow embedding of the [logger] package (logger.go)

    The package keeps six process-wide variables (two [*log.Logger], two
    thresholds, the [*os.File] of the log file and a [sync.Once]) and
    talks to the operating system through [os.OpenFile], [File.Close],
    writes on a file or on standard output, and the clock read by the
    [log] package.  The embedding threads both the package variables and
    an explicit model of that part of the world through a small
    state-and-panic monad:

    - a file on disk is the list of the records appended to it, and
      standard output is the list of the records written to it;
    - every [os.File] ever opened is kept in a table, indexed by its
      handle, with the number of [Close] invocations it received;
    - the clock is a counter read, and advanced, by each [Printf];
    - a method call on a nil [*log.Logger] is a panic;
    - the functions of the Go library that the package only calls
      ([fmt.Sprintf], the header of [log], [os.Executable], ...) are the
      fields of a class, so every statement holds for all of them. *)

From Stdlib Require Import ZArith Ascii String.
From stdpp Require Import base list strings gmap pretty.

(** ** Values of the Go side *)

(** [type LogLevel int]: an open integer type.  No arithmetic is ever
    done on a level, only comparisons, so an unbounded [Z] is exact. *)
Definition LogLevel : Type := Z.

Definition DEBUG : LogLevel := 0%Z.
Definition INFO : LogLevel := 1%Z.
Definition ERROR : LogLevel := 2%Z.
Definition SUCCESS : LogLevel := 3%Z.
Definition FAIL : LogLevel := 4%Z.

(** The ANSI colour constants; [ESC] is the byte 033. *)
Definition ESC : string := String (ascii_of_nat 27) EmptyString.
Definition Reset : string := ESC +:+ "[0m".
Definition Red : string := ESC +:+ "[31m".
Definition Green : string := ESC +:+ "[32m".
Definition Yellow : string := ESC +:+ "[33m".
Definition Blue : string := ESC +:+ "[34m".

(** The operands of a variadic [...interface{}] parameter. *)
Inductive any : Type :=
| AnyInt (z : Z)
| AnyString (s : string)
| AnyBool (b : bool).

(** A non-nil Go [error]. *)
Inductive GoError : Type :=
| PathError (op path : string)
| ErrInvalid
| ErrClosed
| ErrOther (msg : string).

(** What a [log.Logger] writes to: [os.Stdout], or the [*os.File] it
    was built on (a handle number, [None] for the nil pointer). *)
Inductive Writer : Type :=
| Stdout
| FileW (f : option nat).

(** The flag bits of package [log]. *)
Definition Ldate : Z := 1.
Definition Ltime : Z := 2.
Definition Lmicroseconds : Z := 4.

Record Logger : Type := mkLogger {
  lg_out : Writer;
  lg_prefix : string;
  lg_flag : Z
}.

Definition log_New (out : Writer) (prefix : string) (flag : Z) : Logger :=
  mkLogger out prefix flag.

(** ** The platform: what the Go standard library and the OS provide *)

(** The functions of [fmt], [log], [os] and [path/filepath] that the
    package calls but does not define.  [Sprintf] comes with the two
    facts about the verb [%s] on string operands that the package's own
    format templates rely on. *)
Class Platform : Type := {
  Sprintf : string → list any → string;
  formatHeader : string → Z → nat → string;
  openable : string → bool;
  os_Executable : string * option GoError;
  os_Getwd : string * option GoError;
  filepath_Dir : string → string;
  filepath_Join : string → string → string;
  Sprintf_file_template : ∀ a b : string,
    Sprintf "| %s | %s" [AnyString a; AnyString b]
    = "| " +:+ a +:+ " | " +:+ b;
  Sprintf_console_template : ∀ a b c d : string,
    Sprintf "%s| %s |%s %s" [AnyString a; AnyString b; AnyString c; AnyString d]
    = a +:+ "| " +:+ b +:+ " |" +:+ c +:+ " " +:+ d
}.

(** ** The package variables and the world *)

(** An [os.File] that was opened: its path and how many times [Close]
    was invoked on it.  It is open as long as that count is zero. *)
Record File : Type := mkFile {
  f_path : string;
  f_closes : nat
}.

Definition is_open (f : File) : bool := Nat.eqb (f_closes f) 0.

Record World : Type := mkWorld {
  disk : gmap string (list string);
  handles : list File;
  stdout : list string;
  clock : nat
}.

(** The [var ( ... )] block of the package. *)
Record Globals : Type := mkGlobals {
  fileLogger : option Logger;
  consoleLogger : option Logger;
  fileLevel : LogLevel;
  consoleLevel : LogLevel;
  logFile : option nat;
  closeOnce : bool
}.

Record State : Type := mkState {
  vars : Globals;
  world : World
}.

Definition set_fileLogger (l : option Logger) (v : Globals) : Globals :=
  mkGlobals l (consoleLogger v) (fileLevel v) (consoleLevel v) (logFile v) (closeOnce v).
Definition set_consoleLogger (l : option Logger) (v : Globals) : Globals :=
  mkGlobals (fileLogger v) l (fileLevel v) (consoleLevel v) (logFile v) (closeOnce v).
Definition set_fileLevel (x : LogLevel) (v : Globals) : Globals :=
  mkGlobals (fileLogger v) (consoleLogger v) x (consoleLevel v) (logFile v) (closeOnce v).
Definition set_consoleLevel (x : LogLevel) (v : Globals) : Globals :=
  mkGlobals (fileLogger v) (consoleLogger v) (fileLevel v) x (logFile v) (closeOnce v).
Definition set_logFile (f : option nat) (v : Globals) : Globals :=
  mkGlobals (fileLogger v) (consoleLogger v) (fileLevel v) (consoleLevel v) f (closeOnce v).
Definition set_closeOnce (b : bool) (v : Globals) : Globals :=
  mkGlobals (fileLogger v) (consoleLogger v) (fileLevel v) (consoleLevel v) (logFile v) b.

(** The zero values the package starts with. *)
Definition zero_vars : Globals := mkGlobals None None 0%Z 0%Z None false.

Definition init_state (d : gmap string (list string)) (t : nat) : State :=
  mkState zero_vars (mkWorld d [] [] t).

(** ** The monad: state plus a run-time panic *)

Inductive outcome (A : Type) : Type :=
| Ret (a : A) (s : State)
| Panic (why : string).
Arguments Ret {A} a s.
Arguments Panic {A} why.

Definition M (A : Type) : Type := State → outcome A.

Definition ret {A} (a : A) : M A := λ s, Ret a s.

Definition bind {A B} (m : M A) (k : A → M B) : M B :=
  λ s, match m s with
       | Ret a s' => k a s'
       | Panic why => Panic why
       end.

Notation "'let*' x ':=' m 'in' k" := (bind m (λ x, k))
  (at level 10, x pattern, m at level 100, k at level 200).

Definition panic {A} (why : string) : M A := λ _, Panic why.
Definition get_vars : M Globals := λ s, Ret (vars s) s.
Definition modify_vars (f : Globals → Globals) : M unit :=
  λ s, Ret tt (mkState (f (vars s)) (world s)).
Definition get_world : M World := λ s, Ret (world s) s.
Definition put_world (w : World) : M unit := λ s, Ret tt (mkState (vars s) w).

(** ** The operating system and the [log] package *)

Section WithPlatform.
Context `{Platform}.

(** [os.OpenFile(path, O_CREATE|O_WRONLY|O_APPEND, 0644)]: on success
    the file exists afterwards (created empty if it was absent, never
    truncated) and a fresh handle is returned; on failure the result is
    the nil file and a [*PathError]. *)
Definition os_OpenFile (path : string) : M (option nat * option GoError) :=
  let* w := get_world in
  if openable path then
    let d := match disk w !! path with
             | Some _ => disk w
             | None => <[path := []]> (disk w)
             end in
    let* _ := put_world (mkWorld d (handles w ++ [mkFile path 0]) (stdout w) (clock w)) in
    ret (Some (length (handles w)), None)
  else ret (None, Some (PathError "open" path)).

(** [Close] on an [os.File]: the nil receiver gives [ErrInvalid], a closed
    file gives [ErrClosed]; every invocation on a real file is counted. *)
Definition File_Close (f : option nat) : M (option GoError) :=
  match f with
  | None => ret (Some ErrInvalid)
  | Some fd =>
      let* w := get_world in
      match handles w !! fd with
      | None => ret (Some ErrInvalid)
      | Some h =>
          let* _ := put_world (mkWorld (disk w)
                                 (<[fd := mkFile (f_path h) (S (f_closes h))]> (handles w))
                                 (stdout w) (clock w)) in
          ret (if is_open h then None else Some ErrClosed)
      end
  end.

(** A write of one record; on a file that is nil or closed it fails
    and leaves no trace.  The result is the [error] of [Write]. *)
Definition Writer_Write (out : Writer) (line : string) : M (option GoError) :=
  let* w := get_world in
  match out with
  | Stdout =>
      let* _ := put_world (mkWorld (disk w) (handles w) (stdout w ++ [line]) (clock w)) in
      ret None
  | FileW None => ret (Some ErrInvalid)
  | FileW (Some fd) =>
      match handles w !! fd with
      | None => ret (Some ErrInvalid)
      | Some h =>
          if is_open h then
            let* _ := put_world (mkWorld
                        (<[f_path h := default [] (disk w !! f_path h) ++ [line]]> (disk w))
                        (handles w) (stdout w) (clock w)) in
            ret None
          else ret (Some ErrClosed)
      end
  end.

(** [log] ends the record with a newline unless the text has one. *)
Fixpoint ends_with_newline (s : string) : bool :=
  match s with
  | EmptyString => false
  | String c EmptyString => Ascii.eqb c (ascii_of_nat 10)
  | String _ rest => ends_with_newline rest
  end.

Definition newline : string := String (ascii_of_nat 10) EmptyString.

Definition ensure_newline (s : string) : string :=
  if ends_with_newline s then s else s +:+ newline.

(** [time.Now()] as read by the logger: the clock advances at each read. *)
Definition time_Now : M nat :=
  let* w := get_world in
  let* _ := put_world (mkWorld (disk w) (handles w) (stdout w) (S (clock w))) in
  ret (clock w).

(** The record a logger [l] emits for the text [s] at time [now]. *)
Definition record_of (l : Logger) (now : nat) (s : string) : string :=
  formatHeader (lg_prefix l) (lg_flag l) now +:+ ensure_newline s.

(** [Printf(format, v...)] on a [log.Logger]: a nil receiver panics with a
    nil pointer dereference; the error of the write is dropped. *)
Definition Logger_Printf (l : option Logger) (format : string) (v : list any) : M unit :=
  match l with
  | None => panic "invalid memory address or nil pointer dereference"
  | Some lg =>
      let* now := time_Now in
      let* _ := Writer_Write (lg_out lg) (record_of lg now (Sprintf format v)) in
      ret tt
  end.

(** [strings.Contains]. *)
Fixpoint Contains (s substr : string) : bool :=
  String.prefix substr s ||
  match s with
  | EmptyString => false
  | String _ rest => Contains rest substr
  end.

(** ** The package *)

(** [levelToString]. *)
Definition levelToString (level : LogLevel) : string :=
  if Z.eqb level DEBUG then "DEBUG"
  else if Z.eqb level INFO then "INFO"
  else if Z.eqb level ERROR then "ERROR"
  else if Z.eqb level SUCCESS then "SUCCESS"
  else if Z.eqb level FAIL then "FAIL"
  else "UNKNOWN".

(** [shouldLog]: [msgLevel >= minLevel]. *)
Definition shouldLog (msgLevel minLevel : LogLevel) : bool :=
  Z.geb msgLevel minLevel.

(** The [switch level] of [LogMessage] that picks the console colour. *)
Definition colorOf (level : LogLevel) : string :=
  if Z.eqb level DEBUG then Yellow
  else if Z.eqb level INFO then Blue
  else if Z.eqb level ERROR || Z.eqb level FAIL then Red
  else if Z.eqb level SUCCESS then Green
  else Yellow.

(** [getWorkingDir]. *)
Definition getWorkingDir : string * option GoError :=
  match os_Executable with
  | (_, Some err) => (EmptyString, Some err)
  | (exePath, None) =>
      if Contains exePath "go-build" || Contains exePath "tmp"
      then os_Getwd
      else (filepath_Dir exePath, None)
  end.

(** [SetConsoleLevel]. *)
Definition SetConsoleLevel (level : LogLevel) : M unit :=
  let* _ := modify_vars (set_consoleLevel level) in
  modify_vars (set_consoleLogger
    (Some (log_New Stdout EmptyString (Z.lor (Z.lor Ldate Ltime) Lmicroseconds)))).

(** [SetFileLevel]. *)
Definition SetFileLevel (level : LogLevel) : M unit :=
  modify_vars (set_fileLevel level).

(** [SetLogFile]: the result of [os.OpenFile] is assigned to [logFile]
    before the error is looked at, so a failed open stores nil there. *)
Definition SetLogFile (path : string) : M (option GoError) :=
  let* r := os_OpenFile path in
  let* _ := modify_vars (set_logFile (fst r)) in
  match snd r with
  | Some err => ret (Some err)
  | None =>
      let* v := get_vars in
      let* _ := modify_vars (set_fileLogger
        (Some (log_New (FileW (logFile v)) EmptyString
                 (Z.lor (Z.lor Ldate Ltime) Lmicroseconds)))) in
      ret None
  end.

(** [InitDefaultLogFile]. *)
Definition InitDefaultLogFile : M (option GoError) :=
  match getWorkingDir with
  | (_, Some err) => ret (Some err)
  | (dir, None) => SetLogFile (filepath_Join dir "out.log")
  end.

(** [SetupLogging]. *)
Definition SetupLogging (consoleLogLevel fileLogLevel : LogLevel) : M (option GoError) :=
  let* _ := SetConsoleLevel consoleLogLevel in
  let* _ := SetFileLevel fileLogLevel in
  InitDefaultLogFile.

(** [closeOnce.Do(f)]: runs [f] unless the latch is set, then sets it. *)
Definition closeOnce_Do (f : M unit) : M unit :=
  let* v := get_vars in
  if closeOnce v then ret tt
  else
    let* _ := f in
    modify_vars (set_closeOnce true).

(** [Close]. *)
Definition Close : M unit :=
  closeOnce_Do
    (let* v := get_vars in
     match logFile v with
     | Some fd => let* _ := File_Close (Some fd) in ret tt
     | None => ret tt
     end).

(** The [message] of [LogMessage]. *)
Definition message_of (format : string) (args : list any) : string :=
  if Nat.ltb 0 (length args) then Sprintf format args else format.

(** [LogMessage].  Go's [&&] evaluates the nil test only when the
    threshold test succeeded; both are pure. *)
Definition LogMessage (format : string) (level : LogLevel) (args : list any) : M unit :=
  let message := message_of format args in
  let levelStr := levelToString level in
  let* v := get_vars in
  let* _ :=
    if shouldLog level (fileLevel v) && bool_decide (fileLogger v ≠ None)
    then Logger_Printf (fileLogger v) "| %s | %s" [AnyString levelStr; AnyString message]
    else ret tt in
  let* v := get_vars in
  if shouldLog level (consoleLevel v) && bool_decide (consoleLogger v ≠ None)
  then
    let color := colorOf level in
    Logger_Printf (consoleLogger v) "%s| %s |%s %s"
      [AnyString color; AnyString levelStr; AnyString Reset; AnyString message]
  else ret tt.

(** The five fixed-level wrappers. *)
Definition Debug (format : string) (args : list any) : M unit :=
  LogMessage format DEBUG args.
Definition Info (format : string) (args : list any) : M unit :=
  LogMessage format INFO args.
Definition Error (format : string) (args : list any) : M unit :=
  LogMessage format ERROR args.
Definition Success (format : string) (args : list any) : M unit :=
  LogMessage format SUCCESS args.
Definition Fail (format : string) (args : list any) : M unit :=
  LogMessage format FAIL args.

(** ** Programs over the package: sequences of calls *)

Inductive call : Type :=
| CSetupLogging (consoleLogLevel fileLogLevel : LogLevel)
| CSetConsoleLevel (level : LogLevel)
| CSetFileLevel (level : LogLevel)
| CSetLogFile (path : string)
| CInitDefaultLogFile
| CClose
| CLogMessage (format : string) (level : LogLevel) (args : list any)
| CDebug (format : string) (args : list any)
| CInfo (format : string) (args : list any)
| CError (format : string) (args : list any)
| CSuccess (format : string) (args : list any)
| CFail (format : string) (args : list any).

(** One call, its returned error (if it has one) dropped. *)
Definition exec (c : call) : M unit :=
  match c with
  | CSetupLogging cl fl => let* _ := SetupLogging cl fl in ret tt
  | CSetConsoleLevel l => SetConsoleLevel l
  | CSetFileLevel l => SetFileLevel l
  | CSetLogFile p => let* _ := SetLogFile p in ret tt
  | CInitDefaultLogFile => let* _ := InitDefaultLogFile in ret tt
  | CClose => Close
  | CLogMessage f l a => LogMessage f l a
  | CDebug f a => Debug f a
  | CInfo f a => Info f a
  | CError f a => Error f a
  | CSuccess f a => Success f a
  | CFail f a => Fail f a
  end.

Fixpoint run (cs : list call) : M unit :=
  match cs with
  | [] => ret tt
  | c :: rest => let* _ := exec c in run rest
  end.

(** The state an outcome ends in, if it did not panic. *)
Definition final {A} (o : outcome A) : option State :=
  match o with
  | Ret _ s => Some s
  | Panic _ => None
  end.

(** [n] calls of [Close] in a row. *)
Definition Close_times (n : nat) : M unit := run (replicate n CClose).

(** ** Vocabulary for the statements *)

(** The text of a record on the file sink and on the console sink. *)
Definition file_line (level : LogLevel) (message : string) : string :=
  "| " +:+ levelToString level +:+ " | " +:+ message.

Definition console_line (level : LogLevel) (message : string) : string :=
  colorOf level +:+ "| " +:+ levelToString level +:+ " |" +:+ Reset +:+ " " +:+ message.

(** The clock read once. *)
Definition tick (w : World) : World :=
  mkWorld (disk w) (handles w) (stdout w) (S (clock w)).

(** The world after the logger [lg] printed [text]. *)
Definition printed (lg : Logger) (text : string) (w : World) : World :=
  let line := record_of lg (clock w) text in
  match lg_out lg with
  | Stdout => mkWorld (disk w) (handles w) (stdout w ++ [line]) (S (clock w))
  | FileW (Some fd) =>
      match handles w !! fd with
      | Some h =>
          if is_open h
          then mkWorld (<[f_path h := default [] (disk w !! f_path h) ++ [line]]> (disk w))
                 (handles w) (stdout w) (S (clock w))
          else tick w
      | None => tick w
      end
  | FileW None => tick w
  end.

(** The world after a sink with logger [l] and threshold [minLevel] was
    offered [text] at [level]. *)
Definition offered (l : option Logger) (minLevel level : LogLevel) (text : string)
    (w : World) : World :=
  match l with
  | Some lg => if shouldLog level minLevel then printed lg text w else w
  | None => w
  end.

(** How many of the files opened so far are still open. *)
Definition open_count (w : World) : nat :=
  length (filter (λ h, is_open h = true) (handles w)).

(** The handle no package variable refers to any more. *)
Definition unreferenced (fd : nat) (v : Globals) : Prop :=
  logFile v ≠ Some fd ∧
  ∀ lg, fileLogger v = Some lg → lg_out lg ≠ FileW (Some fd).

(** The contents of the file at [path], empty if there is none. *)
Definition contents (w : World) (path : string) : list string :=
  default [] (disk w !! path).

(** The world after [Close] was invoked on the handle [fd]. *)
Definition close_handle (fd : nat) (w : World) : World :=
  match handles w !! fd with
  | Some h =>
      mkWorld (disk w) (<[fd := mkFile (f_path h) (S (f_closes h))]> (handles w))
        (stdout w) (clock w)
  | None => w
  end.

(** The world after [path] was opened with success. *)
Definition opened (path : string) (w : World) : World :=
  mkWorld (match disk w !! path with
           | Some _ => disk w
           | None => <[path := []]> (disk w)
           end)
    (handles w ++ [mkFile path 0]) (stdout w) (clock w).

(** The logger [SetLogFile] builds on the handle [f]. *)
Definition file_logger_on (f : option nat) : Logger :=
  log_New (FileW f) EmptyString (Z.lor (Z.lor Ldate Ltime) Lmicroseconds).

(** The logger [SetConsoleLevel] builds. *)
Definition console_logger : Logger :=
  log_New Stdout EmptyString (Z.lor (Z.lor Ldate Ltime) Lmicroseconds).

(** A call leaves the console logger alone or installs the standard one. *)
Definition console_kept (s s' : State) : Prop :=
  consoleLogger (vars s') = consoleLogger (vars s) ∨
  consoleLogger (vars s') = Some console_logger.

(** The four ways a call can move the file handles, the loggers, the
    variable [logFile] and the latch [closeOnce]: no file touched; a
    successful open; a failed open; the one [Close] that finds the
    latch unset. *)
Inductive handle_step (s s' : State) : Prop :=
| hs_same :
    handles (world s') = handles (world s) →
    logFile (vars s') = logFile (vars s) →
    closeOnce (vars s') = closeOnce (vars s) →
    fileLogger (vars s') = fileLogger (vars s) →
    console_kept s s' →
    handle_step s s'
| hs_open (path : string) :
    handles (world s') = handles (world s) ++ [mkFile path 0] →
    logFile (vars s') = Some (length (handles (world s))) →
    closeOnce (vars s') = closeOnce (vars s) →
    fileLogger (vars s') = Some (file_logger_on (Some (length (handles (world s))))) →
    console_kept s s' →
    handle_step s s'
| hs_open_failed :
    handles (world s') = handles (world s) →
    logFile (vars s') = None →
    closeOnce (vars s') = closeOnce (vars s) →
    fileLogger (vars s') = fileLogger (vars s) →
    console_kept s s' →
    handle_step s s'
| hs_close :
    closeOnce (vars s) = false →
    closeOnce (vars s') = true →
    logFile (vars s') = logFile (vars s) →
    handles (world s')
    = handles (match logFile (vars s) with
               | Some fd => close_handle fd (world s)
               | None => world s
               end) →
    fileLogger (vars s') = fileLogger (vars s) →
    console_kept s s' →
    handle_step s s'.

(** What holds of every state the package can reach: while the latch
    is unset no file was ever closed; no file was closed twice;
    [logFile] names a file that was opened; the console logger, if
    set, is the standard one; the file logger, if set, was built by
    [SetLogFile] on a file that was opened. *)
Definition wf (s : State) : Prop :=
  (closeOnce (vars s) = false → Forall (λ h, f_closes h = 0) (handles (world s))) ∧
  Forall (λ h, f_closes h ≤ 1) (handles (world s)) ∧
  (∀ fd, logFile (vars s) = Some fd → fd < length (handles (world s))) ∧
  (∀ lg, consoleLogger (vars s) = Some lg → lg = console_logger) ∧
  (∀ lg, fileLogger (vars s) = Some lg →
     ∃ fd, lg = file_logger_on (Some fd) ∧ fd < length (handles (world s))).

(** ** Further vocabulary: growth of the world, batches of messages,
    and the example program *)

(** The world [w'] extends [w]: every file and standard output kept
    what they held, files that existed still exist, time did not go
    back. *)
Definition grows (w w' : World) : Prop :=
  (∀ path, contents w path `prefix_of` contents w' path) ∧
  (∀ path, is_Some (disk w !! path) → is_Some (disk w' !! path)) ∧
  stdout w `prefix_of` stdout w' ∧
  clock w ≤ clock w'.


(** A batch of messages, each a template with its operands, logged at
    one level: the calls, and the records the two sinks emit for them
    when both print, the file sink reading the clock first. *)
Definition log_calls (level : LogLevel) (ms : list (string * list any)) : list call :=
  map (λ m, CLogMessage (fst m) level (snd m)) ms.

Fixpoint file_records (fd : nat) (level : LogLevel) (now : nat)
    (ms : list (string * list any)) : list string :=
  match ms with
  | [] => []
  | m :: rest =>
      record_of (file_logger_on (Some fd)) now (file_line level (message_of (fst m) (snd m)))
      :: file_records fd level (S (S now)) rest
  end.

Fixpoint console_records (level : LogLevel) (now : nat)
    (ms : list (string * list any)) : list string :=
  match ms with
  | [] => []
  | m :: rest =>
      record_of console_logger (S now) (console_line level (message_of (fst m) (snd m)))
      :: console_records level (S (S now)) rest
  end.

(** The text of a Go [error], as far as a panic message needs it. *)
Definition error_text (e : GoError) : string :=
  match e with
  | PathError op path => op +:+ " " +:+ path
  | ErrInvalid => "invalid argument"
  | ErrClosed => "file already closed"
  | ErrOther msg => msg
  end.

(** [main] of examples/logger_example.go.  The deferred [Close] runs
    when [main] returns; the [panic] comes before the [defer]. *)
Definition example_main : M unit :=
  let* err := SetupLogging INFO DEBUG in
  match err with
  | Some e => panic (error_text e)
  | None =>
      let* _ := Info "App started" [] in
      let* _ := Debug "Some internal value: %d" [AnyInt 123] in
      let* _ := Success "Task completed successfully" [] in
      let* _ := Fail "Validation failed on field: email" [] in
      let* _ := Error "Connection error: %v" [AnyString "timeout"] in
      Close
  end.

(** The calls that install the console logger, and those that try to
    open a log file. *)
Definition configures_console (c : call) : bool :=
  match c with
  | CSetupLogging _ _ | CSetConsoleLevel _ => true
  | _ => false
  end.

Definition opens_file (c : call) : bool :=
  match c with
  | CSetupLogging _ _ | CSetLogFile _ | CInitDefaultLogFile => true
  | _ => false
  end.

End WithPlatform.

(** ** A concrete platform, to run the package on examples *)

(** A small stand-in for [fmt]: every verb prints its operand in the
    default format, [%%] is a percent sign, a verb without operand and
    a lone [%] print Go's diagnostics; surplus operands are dropped. *)
Definition show_any (a : any) : string :=
  match a with
  | AnyInt z => pretty z
  | AnyString s => s
  | AnyBool b => if b then "true" else "false"
  end.

Fixpoint demo_Sprintf (format : string) (args : list any) : string :=
  match format with
  | EmptyString => EmptyString
  | String c rest =>
      if Ascii.eqb c "%" then
        match rest with
        | EmptyString => "%!(NOVERB)"
        | String v rest' =>
            if Ascii.eqb v "%" then String "%" (demo_Sprintf rest' args)
            else match args with
                 | a :: args' => show_any a +:+ demo_Sprintf rest' args'
                 | [] => "%!" +:+ String v "(MISSING)" +:+ demo_Sprintf rest' []
                 end
        end
      else String c (demo_Sprintf rest args)
  end.

Fixpoint drop_to_slash (l : list ascii) : list ascii :=
  match l with
  | [] => []
  | c :: rest => if Ascii.eqb c "/" then rest else drop_to_slash rest
  end.

(** The path without its last element. *)
Definition demo_Dir (path : string) : string :=
  string_of_list_ascii (rev (drop_to_slash (rev (list_ascii_of_string path)))).

Lemma append_empty_r (s : string) : s +:+ EmptyString = s.
Proof.
  induction s as [|c s IH]; [reflexivity |].
  change (String c (s +:+ EmptyString) = String c s). by rewrite IH.
Qed.

Lemma demo_Sprintf_file_template (a b : string) :
  demo_Sprintf "| %s | %s" [AnyString a; AnyString b] = "| " +:+ a +:+ " | " +:+ b.
Proof. rewrite <- (append_empty_r b) at 2. reflexivity. Qed.

Lemma demo_Sprintf_console_template (a b c d : string) :
  demo_Sprintf "%s| %s |%s %s" [AnyString a; AnyString b; AnyString c; AnyString d]
  = a +:+ "| " +:+ b +:+ " |" +:+ c +:+ " " +:+ d.
Proof. rewrite <- (append_empty_r d) at 2. reflexivity. Qed.

#[local] Instance demo_platform : Platform := {|
  Sprintf := demo_Sprintf;
  formatHeader := λ prefix flag now, prefix +:+ "T" +:+ pretty now +:+ " ";
  openable := λ path, negb (String.prefix "/root/" path);
  os_Executable := ("/tmp/go-build42/b001/exe/main", None);
  os_Getwd := ("/home/user/app", None);
  filepath_Dir := demo_Dir;
  filepath_Join := λ dir name, dir +:+ "/" +:+ name;
  Sprintf_file_template := demo_Sprintf_file_template;
  Sprintf_console_template := demo_Sprintf_console_template
|}.

(** The same platform started from a directory where nothing can be
    created: the default log file cannot be opened. *)
Definition readonly_platform : Platform := {|
  Sprintf := demo_Sprintf;
  formatHeader := λ prefix flag now, prefix +:+ "T" +:+ pretty now +:+ " ";
  openable := λ path, negb (String.prefix "/root/" path);
  os_Executable := ("/tmp/go-build42/b001/exe/main", None);
  os_Getwd := ("/root/app", None);
  filepath_Dir := demo_Dir;
  filepath_Join := λ dir name, dir +:+ "/" +:+ name;
  Sprintf_file_template := demo_Sprintf_file_template;
  Sprintf_console_template := demo_Sprintf_console_template
|}.

(** The empty disk at time 0, nothing configured. *)
Definition start : State := init_state ∅ 0.

(** The world after a run, on the concrete platform. *)
Definition world_after (cs : list call) : option World :=
  world <$> final (run cs start).

(** * Properties *)

Section Properties.
Context `{Platform}.

(** ** What one call does *)

Lemma Logger_Printf_Some (lg : Logger) (format : string) (v : list any) (s : State) :
  Logger_Printf (Some lg) format v s
  = Ret tt (mkState (vars s) (printed lg (Sprintf format v) (world s))).
Proof.
  destruct s as [vs w]. unfold Logger_Printf, printed, time_Now, Writer_Write, bind,
    get_world, put_world, ret, tick. simpl.
  destruct (lg_out lg) as [|[fd|]]; simpl; try reflexivity.
  destruct (handles w !! fd) as [h|]; simpl; try reflexivity.
  destruct (is_open h); reflexivity.
Qed.

(** [LogMessage] as a function of the state: the package variables are
    left alone, the file sink is offered the record first, then the
    console sink. *)
Lemma LogMessage_eq (format : string) (level : LogLevel) (args : list any) (s : State) :
  LogMessage format level args s
  = Ret tt (mkState (vars s)
      (offered (consoleLogger (vars s)) (consoleLevel (vars s)) level
         (console_line level (message_of format args))
         (offered (fileLogger (vars s)) (fileLevel (vars s)) level
            (file_line level (message_of format args)) (world s)))).
Proof.
  destruct s as [vs w]. unfold LogMessage, offered, file_line, console_line.
  unfold bind, get_vars. cbn [vars world].
  destruct (fileLogger vs) as [fl|] eqn:Hfl;
    destruct (shouldLog level (fileLevel vs)) eqn:Hf;
    cbn [andb]; try rewrite (bool_decide_true (Some fl ≠ None)) by done;
    try rewrite (bool_decide_false (None ≠ None)) by (intros E; by apply E);
    rewrite ?Logger_Printf_Some, ?Sprintf_file_template; unfold ret; cbn [vars world];
    (destruct (consoleLogger vs) as [cl|] eqn:Hcl;
     destruct (shouldLog level (consoleLevel vs)) eqn:Hc;
     cbn [andb]; try rewrite (bool_decide_true (Some cl ≠ None)) by done;
     try rewrite (bool_decide_false (None ≠ None)) by (intros E; by apply E);
     rewrite ?Logger_Printf_Some, ?Sprintf_console_template; reflexivity).
Qed.

Lemma SetConsoleLevel_eq (level : LogLevel) (s : State) :
  SetConsoleLevel level s
  = Ret tt (mkState (set_consoleLogger (Some console_logger)
                       (set_consoleLevel level (vars s))) (world s)).
Proof. reflexivity. Qed.

Lemma SetFileLevel_eq (level : LogLevel) (s : State) :
  SetFileLevel level s = Ret tt (mkState (set_fileLevel level (vars s)) (world s)).
Proof. reflexivity. Qed.

Lemma SetLogFile_ok (path : string) (s : State) :
  openable path = true →
  SetLogFile path s
  = Ret None
      (mkState (set_fileLogger (Some (file_logger_on (Some (length (handles (world s))))))
                  (set_logFile (Some (length (handles (world s)))) (vars s)))
         (opened path (world s))).
Proof.
  intros Hop. destruct s as [vs w].
  unfold SetLogFile, os_OpenFile, bind, get_world, put_world, modify_vars, get_vars, ret.
  cbn [vars world]. rewrite Hop. reflexivity.
Qed.

Lemma SetLogFile_fail (path : string) (s : State) :
  openable path = false →
  SetLogFile path s
  = Ret (Some (PathError "open" path)) (mkState (set_logFile None (vars s)) (world s)).
Proof.
  intros Hop. destruct s as [vs w].
  unfold SetLogFile, os_OpenFile, bind, get_world, put_world, modify_vars, get_vars, ret.
  cbn [vars world]. rewrite Hop. reflexivity.
Qed.

Lemma Close_eq (s : State) :
  Close s
  = Ret tt (if closeOnce (vars s) then s
            else mkState (set_closeOnce true (vars s))
                   (match logFile (vars s) with
                    | Some fd => close_handle fd (world s)
                    | None => world s
                    end)).
Proof.
  destruct s as [[fl cl flv clv [fd|] [|]] w];
    unfold Close, closeOnce_Do, File_Close, close_handle, bind, get_vars, get_world,
      put_world, modify_vars, ret; simpl; try reflexivity.
  destruct (handles w !! fd) as [h|]; reflexivity.
Qed.

Lemma offered_handles l minLevel level text w :
  handles (offered l minLevel level text w) = handles w.
Proof.
  unfold offered, printed, tick. destruct l as [lg|]; [| reflexivity].
  destruct (shouldLog level minLevel); [| reflexivity].
  destruct (lg_out lg) as [|[fd|]]; try reflexivity.
  destruct (handles w !! fd) as [h|]; [| reflexivity].
  destruct (is_open h); reflexivity.
Qed.

Lemma LogMessage_handle_step format level args s :
  ∃ s', LogMessage format level args s = Ret tt s' ∧ handle_step s s'.
Proof.
  eexists. split; [apply LogMessage_eq |].
  apply hs_same; simpl; try reflexivity; [| by left].
  by rewrite !offered_handles.
Qed.

Lemma SetLogFile_handle_step path s :
  ∃ e s', SetLogFile path s = Ret e s' ∧ handle_step s s'.
Proof.
  destruct (openable path) eqn:Hop.
  - do 2 eexists. split; [by apply SetLogFile_ok |].
    apply (hs_open _ _ path); try done. by left.
  - do 2 eexists. split; [by apply SetLogFile_fail |].
    apply hs_open_failed; try done. by left.
Qed.

Lemma InitDefaultLogFile_handle_step s :
  ∃ e s', InitDefaultLogFile s = Ret e s' ∧ handle_step s s'.
Proof.
  unfold InitDefaultLogFile. destruct getWorkingDir as [dir [err|]].
  - do 2 eexists. split; [reflexivity |]. apply hs_same; try done. by left.
  - apply SetLogFile_handle_step.
Qed.

Lemma SetupLogging_handle_step cl fl s :
  ∃ e s', SetupLogging cl fl s = Ret e s' ∧ handle_step s s'.
Proof.
  unfold SetupLogging, bind. rewrite SetConsoleLevel_eq, SetFileLevel_eq. simpl.
  match goal with |- context [InitDefaultLogFile ?s0] =>
    destruct (InitDefaultLogFile_handle_step s0) as (e & s' & He & Hst) end.
  exists e, s'. split; [exact He |].
  assert (Hk : ∀ s0, console_kept
            (mkState (set_fileLevel fl (set_consoleLogger (Some console_logger)
                        (set_consoleLevel cl (vars s)))) (world s)) s0 →
          console_kept s s0).
  { intros s0 [Hk|Hk]; right; simpl in Hk; exact Hk. }
  destruct Hst as [Hh Hl Hc Hf Hcon|path Hh Hl Hc Hf Hcon|Hh Hl Hc Hf Hcon
                  |Hc Hc' Hl Hh Hf Hcon]; simpl in *.
  - apply hs_same; auto.
  - apply (hs_open _ _ path); auto.
  - apply hs_open_failed; auto.
  - apply hs_close; auto.
Qed.

Lemma Close_handle_step s :
  ∃ s', Close s = Ret tt s' ∧ handle_step s s'.
Proof.
  eexists. split; [apply Close_eq |].
  destruct (closeOnce (vars s)) eqn:Hc.
  - apply hs_same; try done. by left.
  - apply hs_close; simpl; try done. by left.
Qed.

(** Every call returns, and moves the handles in one of the four ways. *)
Lemma exec_handle_step (c : call) (s : State) :
  ∃ s', exec c s = Ret tt s' ∧ handle_step s s'.
Proof.
  destruct c as [cl fl|l|l|p| | |f l a|f a|f a|f a|f a|f a]; simpl;
    try apply LogMessage_handle_step.
  - unfold bind. destruct (SetupLogging_handle_step cl fl s) as (e & s' & -> & Hst).
    by exists s'.
  - eexists. split; [apply SetConsoleLevel_eq |]. apply hs_same; try done. by right.
  - eexists. split; [apply SetFileLevel_eq |]. apply hs_same; try done. by left.
  - unfold bind. destruct (SetLogFile_handle_step p s) as (e & s' & -> & Hst).
    by exists s'.
  - unfold bind. destruct (InitDefaultLogFile_handle_step s) as (e & s' & -> & Hst).
    by exists s'.
  - apply Close_handle_step.
Qed.

(** A property kept by each of the four moves is kept by a whole run,
    and a run always returns. *)
Lemma run_invariant (P : State → Prop) :
  (∀ s s', P s → handle_step s s' → P s') →
  ∀ cs s, P s → ∃ s', run cs s = Ret tt s' ∧ P s'.
Proof.
  intros Hstep cs. induction cs as [|c cs IH]; intros s HP.
  - exists s. by split.
  - simpl. unfold bind.
    destruct (exec_handle_step c s) as (s1 & -> & Hst).
    apply IH. by apply (Hstep s).
Qed.

Lemma run_total (cs : list call) (s : State) : ∃ s', run cs s = Ret tt s'.
Proof.
  destruct (run_invariant (λ _, True) (λ _ _ _ _, I) cs s I) as (s' & Hr & _).
  by exists s'.
Qed.

Lemma run_app (xs ys : list call) (a b c : State) :
  run xs a = Ret tt b → run ys b = Ret tt c → run (xs ++ ys) a = Ret tt c.
Proof.
  revert a. induction xs as [|x xs IH]; intros a Hx Hy.
  - simpl in Hx. injection Hx as ->. exact Hy.
  - simpl in *. unfold bind in *. destruct (exec x a) as [[] a'|]; [| done].
    by apply IH.
Qed.

(** ** The reachable states *)

Lemma wf_init d t : wf (init_state d t).
Proof.
  unfold wf, init_state. simpl. repeat split; try by constructor. all: done.
Qed.

Lemma close_handle_open fd h w :
  handles w !! fd = Some h →
  close_handle fd w
  = mkWorld (disk w) (<[fd := mkFile (f_path h) (S (f_closes h))]> (handles w))
      (stdout w) (clock w).
Proof. intros Hh. unfold close_handle. by rewrite Hh. Qed.

Lemma close_handle_length fd w : length (handles (close_handle fd w)) = length (handles w).
Proof.
  unfold close_handle. destruct (handles w !! fd) as [h|]; [| done].
  simpl. by rewrite length_insert.
Qed.

Lemma console_kept_wf s s' :
  console_kept s s' →
  (∀ lg, consoleLogger (vars s) = Some lg → lg = console_logger) →
  ∀ lg, consoleLogger (vars s') = Some lg → lg = console_logger.
Proof. intros [Hk|Hk] Hs lg; rewrite Hk; [apply Hs | by intros [= <-]]. Qed.

Lemma wf_step s s' : wf s → handle_step s s' → wf s'.
Proof.
  intros (H0 & H1 & Hlf & Hcon & Hfl)
    [Hh Hl Hc Hf Hk|path Hh Hl Hc Hf Hk|Hh Hl Hc Hf Hk|Hc Hc' Hl Hh Hf Hk]; unfold wf;
    (split; [| split; [| split; [| split; [by apply (console_kept_wf s) |]]]]).
  - by rewrite Hh, Hc.
  - by rewrite Hh.
  - by rewrite Hh, Hl.
  - by rewrite Hh, Hf.
  - rewrite Hh, Hc. intros Hco. apply Forall_app_2; [by apply H0 |]. by repeat constructor.
  - rewrite Hh. apply Forall_app_2; [done |]. repeat constructor.
  - rewrite Hh, Hl. intros fd [= <-]. rewrite length_app. simpl. lia.
  - rewrite Hh, Hf. intros lg [= <-]. eexists. split; [done |].
    rewrite length_app. simpl. lia.
  - by rewrite Hh, Hc.
  - by rewrite Hh.
  - by rewrite Hl.
  - by rewrite Hh, Hf.
  - by rewrite Hc'.
  - rewrite Hh. destruct (logFile (vars s)) as [fd|] eqn:Hfd; [| done].
    destruct (lookup_lt_is_Some_2 (handles (world s)) fd (Hlf fd eq_refl)) as [h Hfdh].
    rewrite (close_handle_open _ _ _ Hfdh). simpl.
    apply Forall_insert; [done |]. simpl.
    pose proof (Forall_lookup_1 _ _ _ _ (H0 Hc) Hfdh) as Hz. simpl in Hz. lia.
  - rewrite Hh, Hl. intros fd Hfd. rewrite Hfd, close_handle_length. by apply Hlf.
  - rewrite Hh, Hf. intros lg Hlg. destruct (Hfl lg Hlg) as (fd & -> & Hlt).
    exists fd. split; [done |].
    destruct (logFile (vars s)); [by rewrite close_handle_length | done].
Qed.

Lemma run_wf cs d t : ∃ s, run cs (init_state d t) = Ret tt s ∧ wf s.
Proof. apply (run_invariant wf wf_step). apply wf_init. Qed.

(** ** The latch *)

Lemma Close_latched (s : State) : closeOnce (vars s) = true → Close s = Ret tt s.
Proof. intros Hc. rewrite Close_eq. by rewrite Hc. Qed.

Lemma Close_sets_latch (s s1 : State) :
  Close s = Ret tt s1 → closeOnce (vars s1) = true.
Proof.
  rewrite Close_eq. intros [= <-]. by destruct (closeOnce (vars s)) eqn:Hc.
Qed.

Lemma Close_times_latched (n : nat) (s : State) :
  closeOnce (vars s) = true → Close_times n s = Ret tt s.
Proof.
  intros Hc. unfold Close_times. induction n as [|n IH]; [reflexivity |].
  simpl. unfold bind. by rewrite (Close_latched s Hc).
Qed.

Lemma Close_times_S (n : nat) (s s1 : State) :
  Close s = Ret tt s1 → Close_times (S n) s = Ret tt s1.
Proof.
  intros Hcl. unfold Close_times. simpl. unfold bind. rewrite Hcl.
  apply Close_times_latched. by apply (Close_sets_latch s).
Qed.

(** C4.  After any sequence of calls, whether or not it opened a file,
    [Close] invoked zero, one or [n + 1] times returns without panic (and
    it has no error result); zero calls change nothing, [n + 1] calls end
    in the state one call ends in, and a further call changes nothing.
    No file has been closed more than once.  The one call does nothing
    to the world when [logFile] is nil, nothing at all when the latch
    is set, and otherwise closes the file of [logFile], which was open,
    exactly once. *)
Theorem Close_any_number_of_times (cs : list call) (d : gmap string (list string))
    (t n : nat) :
  ∃ s s1,
    run cs (init_state d t) = Ret tt s ∧
    Close_times 0 s = Ret tt s ∧
    Close s = Ret tt s1 ∧
    Close_times (S n) s = Ret tt s1 ∧
    Close s1 = Ret tt s1 ∧
    Forall (λ h, f_closes h ≤ 1) (handles (world s1)) ∧
    (logFile (vars s) = None → world s1 = world s) ∧
    (closeOnce (vars s) = true → s1 = s) ∧
    (closeOnce (vars s) = false → ∀ fd, logFile (vars s) = Some fd →
       ∃ h, handles (world s) !! fd = Some h ∧ f_closes h = 0 ∧
            world s1 = mkWorld (disk (world s))
                         (<[fd := mkFile (f_path h) 1]> (handles (world s)))
                         (stdout (world s)) (clock (world s))).
Proof.
  destruct (run_wf cs d t) as (s & Hrun & Hwf).
  destruct (Close_handle_step s) as (s1 & Hcl & Hst).
  pose proof (wf_step s s1 Hwf Hst) as (_ & Hle & _ & _ & _).
  exists s, s1. repeat split; try done.
  - by apply Close_times_S.
  - apply Close_latched. by apply (Close_sets_latch s).
  - intros Hnil. rewrite Close_eq in Hcl. injection Hcl as <-.
    destruct (closeOnce (vars s)); [done |]. simpl. by rewrite Hnil.
  - intros Hc. rewrite (Close_latched s Hc) in Hcl. by injection Hcl.
  - intros Hc fd Hfd. destruct Hwf as (H0 & _ & Hlf & _ & _).
    destruct (lookup_lt_is_Some_2 (handles (world s)) fd (Hlf fd Hfd)) as [h Hh].
    pose proof (Forall_lookup_1 _ _ _ _ (H0 Hc) Hh) as Hz. simpl in Hz.
    exists h. repeat split; try done.
    rewrite Close_eq in Hcl. injection Hcl as <-. rewrite Hc, Hfd. simpl.
    rewrite (close_handle_open _ _ _ Hh). by rewrite Hz.
Qed.

(** The latch once set, no call closes a file: the files opened so
    far keep their state and every file opened later is open. *)
Lemma latched_forever (cs : list call) (s : State) :
  closeOnce (vars s) = true →
  ∃ s' new,
    run cs s = Ret tt s' ∧
    closeOnce (vars s') = true ∧
    handles (world s') = handles (world s) ++ new ∧
    Forall (λ h, f_closes h = 0) new.
Proof.
  intros Hc.
  destruct (run_invariant
    (λ s', closeOnce (vars s') = true ∧
           ∃ new, handles (world s') = handles (world s) ++ new ∧
                  Forall (λ h, f_closes h = 0) new)) with (cs := cs) (s := s)
    as (s' & Hrun & Hc' & new & Hh & Hnew).
  - clear. intros s1 s2 (Hc1 & new & Hh1 & Hnew)
      [Hh Hl Hc _ _|path Hh Hl Hc _ _|Hh Hl Hc _ _|Hc Hc' Hl Hh _ _].
    + split; [congruence |]. exists new. by rewrite Hh.
    + split; [congruence |]. exists (new ++ [mkFile path 0]).
      rewrite Hh, Hh1, <- app_assoc. split; [done |].
      apply Forall_app_2; [done |]. by repeat constructor.
    + split; [congruence |]. exists new. by rewrite Hh.
    + congruence.
  - split; [done |]. exists []. by rewrite app_nil_r.
  - by exists s', new.
Qed.

(** C10.  Once [Close] has been invoked, in any sequence of calls, the
    latch stays set for good: whatever calls follow, a further [Close]
    leaves the whole state as it is, every file opened before keeps
    its state, and every file opened afterwards, by [SetLogFile] or
    otherwise, is still open at the end. *)
Theorem Close_latch_is_one_shot (before after : list call)
    (d : gmap string (list string)) (t : nat) :
  ∃ s1 s2 new,
    run (before ++ [CClose]) (init_state d t) = Ret tt s1 ∧
    run after s1 = Ret tt s2 ∧
    run (after ++ [CClose]) s1 = Ret tt s2 ∧
    Close s2 = Ret tt s2 ∧
    handles (world s2) = handles (world s1) ++ new ∧
    Forall (λ h, is_open h = true) new.
Proof.
  destruct (run_total before (init_state d t)) as (s0 & Hr0).
  destruct (Close_handle_step s0) as (s1 & Hcl & _).
  pose proof (Close_sets_latch _ _ Hcl) as Hc1.
  destruct (latched_forever after s1 Hc1) as (s2 & new & Hr & Hc2 & Hh & Hnew).
  exists s1, s2, new. repeat split; try done.
  - apply (run_app _ _ _ s0); [done |]. simpl. unfold bind. by rewrite Hcl.
  - apply (run_app _ _ _ s2); [done |]. simpl. unfold bind.
    by rewrite (Close_latched s2 Hc2).
  - by apply Close_latched.
  - eapply Forall_impl; [exact Hnew |]. intros h Hz. unfold is_open. by rewrite Hz.
Qed.

(** ** What a sink does with a record *)

#[local] Arguments offered : simpl never.
#[local] Arguments printed : simpl never.

Lemma printed_console (text : string) (w : World) :
  printed console_logger text w
  = mkWorld (disk w) (handles w)
      (stdout w ++ [record_of console_logger (clock w) text]) (S (clock w)).
Proof. reflexivity. Qed.

Lemma printed_file_open (fd : nat) (h : File) (text : string) (w : World) :
  handles w !! fd = Some h → is_open h = true →
  printed (file_logger_on (Some fd)) text w
  = mkWorld (<[f_path h := contents w (f_path h)
                            ++ [record_of (file_logger_on (Some fd)) (clock w) text]]> (disk w))
      (handles w) (stdout w) (S (clock w)).
Proof. intros Hh Ho. unfold printed. simpl. by rewrite Hh, Ho. Qed.

Lemma printed_file_stdout (f : option nat) (text : string) (w : World) :
  stdout (printed (file_logger_on f) text w) = stdout w.
Proof.
  unfold printed. simpl. destruct f as [fd|]; [| reflexivity].
  destruct (handles w !! fd) as [h|]; [| reflexivity].
  destruct (is_open h); reflexivity.
Qed.

Lemma offered_skip (l : option Logger) (minLevel level : LogLevel) (text : string)
    (w : World) :
  l = None ∨ shouldLog level minLevel = false → offered l minLevel level text w = w.
Proof.
  unfold offered. intros [-> | Hs]; [reflexivity |].
  destruct l; [by rewrite Hs | reflexivity].
Qed.

Lemma offered_due (lg : Logger) (minLevel level : LogLevel) (text : string) (w : World) :
  shouldLog level minLevel = true → offered (Some lg) minLevel level text w = printed lg text w.
Proof. intros Hs. unfold offered. by rewrite Hs. Qed.

Lemma offered_console_disk (l : option Logger) minLevel level text (w : World) :
  (∀ lg, l = Some lg → lg = console_logger) →
  disk (offered l minLevel level text w) = disk w.
Proof.
  intros Hl. unfold offered. destruct l as [lg|]; [| reflexivity].
  rewrite (Hl lg eq_refl). by destruct (shouldLog level minLevel).
Qed.

Lemma offered_file_stdout (l : option Logger) minLevel level text (w : World)
    (n : nat) :
  (∀ lg, l = Some lg → ∃ fd, lg = file_logger_on (Some fd) ∧ fd < n) →
  stdout (offered l minLevel level text w) = stdout w.
Proof.
  intros Hl. unfold offered. destruct l as [lg|]; [| reflexivity].
  destruct (Hl lg eq_refl) as (fd & -> & _).
  destruct (shouldLog level minLevel); [apply printed_file_stdout | reflexivity].
Qed.

Lemma shouldLog_spec (msgLevel minLevel : LogLevel) :
  shouldLog msgLevel minLevel = true ↔ (msgLevel >= minLevel)%Z.
Proof. unfold shouldLog. rewrite Z.geb_le. lia. Qed.

Lemma shouldLog_below (msgLevel minLevel : LogLevel) :
  (msgLevel < minLevel)%Z → shouldLog msgLevel minLevel = false.
Proof.
  intros Hlt. destruct (shouldLog msgLevel minLevel) eqn:E; [| reflexivity].
  apply shouldLog_spec in E. lia.
Qed.

(** C2.  The levels are ordered DEBUG < INFO < ERROR < SUCCESS < FAIL by
    their declared values, and [shouldLog msgLevel minLevel] holds
    exactly when [msgLevel >= minLevel].  In any state the package can
    reach, once a sink's threshold is set to [L2]: a message at a level
    [L1 < L2] leaves that sink as it was (standard output for the
    console, every file for the file sink), and a message at any level
    [L >= L2] adds exactly one record to it, on the console always and
    on the file sink when its file is open. *)
Theorem threshold_filters_each_sink (cs : list call) (d : gmap string (list string))
    (t : nat) (L1 L2 : LogLevel) (format : string) (args : list any) :
  (DEBUG < INFO)%Z ∧ (INFO < ERROR)%Z ∧ (ERROR < SUCCESS)%Z ∧ (SUCCESS < FAIL)%Z ∧
  (∀ msgLevel minLevel, shouldLog msgLevel minLevel = true ↔ (msgLevel >= minLevel)%Z) ∧
  ∃ s sc sf,
    run cs (init_state d t) = Ret tt s ∧
    SetConsoleLevel L2 s = Ret tt sc ∧
    SetFileLevel L2 s = Ret tt sf ∧
    ((L1 < L2)%Z →
       (∃ s', LogMessage format L1 args sc = Ret tt s' ∧
              stdout (world s') = stdout (world sc)) ∧
       (∃ s', LogMessage format L1 args sf = Ret tt s' ∧
              disk (world s') = disk (world sf))) ∧
    (∀ L, (L2 <= L)%Z →
       (∃ s' now, LogMessage format L args sc = Ret tt s' ∧
          stdout (world s')
          = stdout (world sc)
            ++ [record_of console_logger now (console_line L (message_of format args))]) ∧
       (∀ fd h, fileLogger (vars s) = Some (file_logger_on (Some fd)) →
          handles (world s) !! fd = Some h → is_open h = true →
          ∃ s', LogMessage format L args sf = Ret tt s' ∧
            contents (world s') (f_path h)
            = contents (world sf) (f_path h)
              ++ [record_of (file_logger_on (Some fd)) (clock (world sf))
                    (file_line L (message_of format args))])).
Proof.
  do 4 (split; [reflexivity |]). split; [apply shouldLog_spec |].
  destruct (run_wf cs d t) as (s & Hrun & (_ & _ & _ & Hcon & Hfl)).
  exists s. do 2 eexists.
  split; [exact Hrun |]. split; [apply SetConsoleLevel_eq |].
  split; [apply SetFileLevel_eq |]. split.
  - intros Hlt. split; eexists; (split; [apply LogMessage_eq |]); cbn [vars world].
    + rewrite (offered_skip (consoleLogger _)) by (right; by apply shouldLog_below).
      by apply (offered_file_stdout _ _ _ _ _ (length (handles (world s)))).
    + rewrite (offered_skip (fileLogger _)) by (right; by apply shouldLog_below).
      by apply offered_console_disk.
  - intros L Hle. assert (Hs : shouldLog L L2 = true) by (apply shouldLog_spec; lia).
    split.
    + do 2 eexists. split; [apply LogMessage_eq |]. cbn [vars world].
      change (consoleLogger (set_consoleLogger _ _)) with (Some console_logger).
      rewrite (offered_due console_logger) by exact Hs.
      rewrite printed_console. cbn [stdout].
      by rewrite (offered_file_stdout _ _ _ _ _ (length (handles (world s)))).
    + intros fd h Hlg Hh Ho. eexists. split; [apply LogMessage_eq |]. cbn [vars world].
      unfold contents at 1. rewrite offered_console_disk by done.
      change (fileLogger (set_fileLevel _ _)) with (fileLogger (vars s)).
      rewrite Hlg. rewrite (offered_due (file_logger_on (Some fd))) by exact Hs.
      rewrite (printed_file_open fd h) by done.
      cbn [disk]. by rewrite lookup_insert_eq.
Qed.

(** The wrappers are [LogMessage] at their level. *)
Lemma wrappers_are_LogMessage (format : string) (args : list any) :
  Debug format args = LogMessage format DEBUG args ∧
  Info format args = LogMessage format INFO args ∧
  Error format args = LogMessage format ERROR args ∧
  Success format args = LogMessage format SUCCESS args ∧
  Fail format args = LogMessage format FAIL args.
Proof. by repeat split. Qed.

(** C3.  Whatever [Sprintf] does, with no operand the message is the
    template itself, so that [LogMessage] and the five wrappers return
    normally after offering both sinks the records built on the
    template verbatim; with at least one operand the message is
    [Sprintf] of the template and the operands. *)
Theorem no_operands_no_formatting (format : string) (level : LogLevel) (s : State) :
  message_of format [] = format ∧
  LogMessage format level [] s
  = Ret tt (mkState (vars s)
      (offered (consoleLogger (vars s)) (consoleLevel (vars s)) level
         (colorOf level +:+ "| " +:+ levelToString level +:+ " |" +:+ Reset +:+ " " +:+ format)
         (offered (fileLogger (vars s)) (fileLevel (vars s)) level
            ("| " +:+ levelToString level +:+ " | " +:+ format) (world s)))) ∧
  (∀ args, Debug format args = LogMessage format DEBUG args) ∧
  (∀ args, Info format args = LogMessage format INFO args) ∧
  (∀ args, Error format args = LogMessage format ERROR args) ∧
  (∀ args, Success format args = LogMessage format SUCCESS args) ∧
  (∀ args, Fail format args = LogMessage format FAIL args) ∧
  ∀ (a : any) (args : list any),
    message_of format (a :: args) = Sprintf format (a :: args) ∧
    LogMessage format level (a :: args) s
    = Ret tt (mkState (vars s)
        (offered (consoleLogger (vars s)) (consoleLevel (vars s)) level
           (colorOf level +:+ "| " +:+ levelToString level +:+ " |" +:+ Reset +:+ " "
            +:+ Sprintf format (a :: args))
           (offered (fileLogger (vars s)) (fileLevel (vars s)) level
              ("| " +:+ levelToString level +:+ " | " +:+ Sprintf format (a :: args))
              (world s)))).
Proof.
  split; [reflexivity |]. split; [apply (LogMessage_eq format level []) |].
  do 5 (split; [reflexivity |]).
  intros a args. split; [reflexivity |]. apply (LogMessage_eq format level (a :: args)).
Qed.

Lemma colorOf_unrecognized (level : LogLevel) :
  (level < DEBUG ∨ FAIL < level)%Z → colorOf level = Yellow.
Proof.
  unfold colorOf, DEBUG, INFO, ERROR, SUCCESS, FAIL. intros Hout.
  repeat match goal with
         | |- context [Z.eqb ?a ?b] => destruct (Z.eqb_spec a b); [lia |]
         end.
  reflexivity.
Qed.

(** C5.  In any state the package can reach, a message whose level
    passes the file threshold, the file being open, adds to the file
    the record made of the logger's header and the text
    [| LEVEL | message], in which the package puts no colour code; if
    the level passes the console threshold and the console logger is
    set, standard output receives the record whose text is that same
    text with the colour code in front and the reset code after the
    level tag.  The colour is yellow for DEBUG, blue for INFO, red for
    ERROR and FAIL, green for SUCCESS and yellow for any other level. *)
Theorem record_shapes (cs : list call) (d : gmap string (list string)) (t : nat)
    (format : string) (level : LogLevel) (args : list any) :
  ∃ s s',
    run cs (init_state d t) = Ret tt s ∧
    LogMessage format level args s = Ret tt s' ∧
    (∀ fd h, shouldLog level (fileLevel (vars s)) = true →
       fileLogger (vars s) = Some (file_logger_on (Some fd)) →
       handles (world s) !! fd = Some h → is_open h = true →
       contents (world s') (f_path h)
       = contents (world s) (f_path h)
         ++ [record_of (file_logger_on (Some fd)) (clock (world s))
               ("| " +:+ levelToString level +:+ " | " +:+ message_of format args)]) ∧
    (shouldLog level (consoleLevel (vars s)) = true →
     consoleLogger (vars s) ≠ None →
     ∃ now, stdout (world s')
       = stdout (world s)
         ++ [record_of console_logger now
               (colorOf level +:+ "| " +:+ levelToString level +:+ " |" +:+ Reset
                +:+ " " +:+ message_of format args)]) ∧
    colorOf DEBUG = Yellow ∧ colorOf INFO = Blue ∧ colorOf ERROR = Red ∧
    colorOf FAIL = Red ∧ colorOf SUCCESS = Green ∧
    ((level < DEBUG ∨ FAIL < level)%Z → colorOf level = Yellow) ∧
    levelToString DEBUG = "DEBUG" ∧ levelToString INFO = "INFO" ∧
    levelToString ERROR = "ERROR" ∧ levelToString SUCCESS = "SUCCESS" ∧
    levelToString FAIL = "FAIL".
Proof.
  destruct (run_wf cs d t) as (s & Hrun & (_ & _ & _ & Hcon & Hfl)).
  exists s. eexists. split; [exact Hrun |]. split; [apply LogMessage_eq |].
  cbn [vars world]. split; [| split; [| by repeat split; try apply colorOf_unrecognized]].
  - intros fd h Hs Hlg Hh Ho. unfold contents at 1.
    rewrite offered_console_disk by done.
    rewrite Hlg, (offered_due (file_logger_on (Some fd))) by exact Hs.
    rewrite (printed_file_open fd h) by done. cbn [disk]. by rewrite lookup_insert_eq.
  - intros Hs Hset. destruct (consoleLogger (vars s)) as [lg|] eqn:Hlg; [| done].
    rewrite (Hcon lg eq_refl). rewrite (offered_due console_logger) by exact Hs.
    rewrite printed_console. cbn [stdout]. eexists.
    by rewrite (offered_file_stdout _ _ _ _ _ (length (handles (world s)))).
Qed.

(** C6.  In any state the package can reach, [LogMessage] returns
    normally (it has no error result) and leaves the package variables
    alone.  If the file logger is nil or the level is below the file
    threshold, no file changes and the world is the one the console
    sink alone produces; if the console logger is nil or the level is
    below the console threshold, standard output does not change and
    the world is the one the file sink alone produces; if both sinks
    are skipped nothing changes at all. *)
Theorem skipped_sink_is_silent (cs : list call) (d : gmap string (list string)) (t : nat)
    (format : string) (level : LogLevel) (args : list any) :
  ∃ s s',
    run cs (init_state d t) = Ret tt s ∧
    LogMessage format level args s = Ret tt s' ∧
    vars s' = vars s ∧
    (fileLogger (vars s) = None ∨ shouldLog level (fileLevel (vars s)) = false →
       disk (world s') = disk (world s) ∧
       world s' = offered (consoleLogger (vars s)) (consoleLevel (vars s)) level
                    (console_line level (message_of format args)) (world s)) ∧
    (consoleLogger (vars s) = None ∨ shouldLog level (consoleLevel (vars s)) = false →
       stdout (world s') = stdout (world s) ∧
       world s' = offered (fileLogger (vars s)) (fileLevel (vars s)) level
                    (file_line level (message_of format args)) (world s)) ∧
    ((fileLogger (vars s) = None ∨ shouldLog level (fileLevel (vars s)) = false) →
     (consoleLogger (vars s) = None ∨ shouldLog level (consoleLevel (vars s)) = false) →
     s' = s).
Proof.
  destruct (run_wf cs d t) as (s & Hrun & (_ & _ & _ & Hcon & Hfl)).
  exists s. eexists. split; [exact Hrun |]. split; [apply LogMessage_eq |].
  cbn [vars world]. split; [reflexivity |]. repeat split.
  - rewrite (offered_skip (fileLogger _)) by done. by apply offered_console_disk.
  - by rewrite (offered_skip (fileLogger _)) by done.
  - rewrite (offered_skip (consoleLogger _)) by done.
    by apply (offered_file_stdout _ _ _ _ _ (length (handles (world s)))).
  - by rewrite (offered_skip (consoleLogger _)) by done.
  - intros Hf Hc. rewrite (offered_skip (fileLogger _)) by done.
    rewrite (offered_skip (consoleLogger _)) by done. by destruct s.
Qed.

(** C9.  When both loggers are nil, as they are until a configuration
    function has run, [LogMessage] and the five wrappers return
    normally and leave the whole state, hence both sinks, as it was,
    although a [Printf] on either nil logger would panic: both calls
    are guarded by the nil test. *)
Theorem nil_loggers_are_guarded (format : string) (level : LogLevel) (args : list any)
    (s : State) :
  consoleLogger (vars s) = None →
  fileLogger (vars s) = None →
  LogMessage format level args s = Ret tt s ∧
  Debug format args s = Ret tt s ∧
  Info format args s = Ret tt s ∧
  Error format args s = Ret tt s ∧
  Success format args s = Ret tt s ∧
  Fail format args s = Ret tt s ∧
  (∃ why, Logger_Printf (consoleLogger (vars s)) format args s = Panic why) ∧
  (∃ why, Logger_Printf (fileLogger (vars s)) format args s = Panic why).
Proof.
  intros Hc Hf.
  assert (Hlog : ∀ l, LogMessage format l args s = Ret tt s).
  { intros l. rewrite LogMessage_eq, Hc, Hf. by destruct s. }
  repeat split; try apply Hlog; rewrite ?Hc, ?Hf; by eexists.
Qed.

(** C7.  [SetFileLevel] stores the level in [fileLevel] and changes
    nothing else: not the file logger, not [logFile], not the console
    threshold, not the console logger, not the world.  [SetConsoleLevel]
    stores the level in [consoleLevel] and installs a fresh console
    logger whatever was there before; the file threshold, the file
    logger, [logFile], the latch and the world are unchanged. *)
Theorem level_setters_frame (level : LogLevel) (s : State) :
  ∃ sf sc,
    SetFileLevel level s = Ret tt sf ∧
    fileLevel (vars sf) = level ∧
    fileLogger (vars sf) = fileLogger (vars s) ∧
    logFile (vars sf) = logFile (vars s) ∧
    closeOnce (vars sf) = closeOnce (vars s) ∧
    consoleLevel (vars sf) = consoleLevel (vars s) ∧
    consoleLogger (vars sf) = consoleLogger (vars s) ∧
    world sf = world s ∧
    SetConsoleLevel level s = Ret tt sc ∧
    consoleLevel (vars sc) = level ∧
    consoleLogger (vars sc)
    = Some (log_New Stdout EmptyString (Z.lor (Z.lor Ldate Ltime) Lmicroseconds)) ∧
    fileLevel (vars sc) = fileLevel (vars s) ∧
    fileLogger (vars sc) = fileLogger (vars s) ∧
    logFile (vars sc) = logFile (vars s) ∧
    closeOnce (vars sc) = closeOnce (vars s) ∧
    world sc = world s.
Proof.
  do 2 eexists. split; [apply SetFileLevel_eq |].
  do 7 (split; [reflexivity |]). split; [apply SetConsoleLevel_eq |].
  by repeat split.
Qed.

(** C8.  [SetupLogging] is [SetConsoleLevel], then [SetFileLevel], then
    [InitDefaultLogFile]: the first two return, and the outcome of
    [SetupLogging] (its error or nil, and the state) is the outcome of
    [InitDefaultLogFile] run after them, which always returns. *)
Theorem SetupLogging_is_the_composition (consoleLogLevel fileLogLevel : LogLevel)
    (s : State) :
  ∃ s1 s2 err s3,
    SetConsoleLevel consoleLogLevel s = Ret tt s1 ∧
    SetFileLevel fileLogLevel s1 = Ret tt s2 ∧
    InitDefaultLogFile s2 = Ret err s3 ∧
    SetupLogging consoleLogLevel fileLogLevel s = Ret err s3.
Proof.
  destruct (InitDefaultLogFile_handle_step
              (mkState (set_fileLevel fileLogLevel
                          (set_consoleLogger (Some console_logger)
                             (set_consoleLevel consoleLogLevel (vars s)))) (world s)))
    as (err & s3 & Hinit & _).
  do 2 eexists. exists err, s3.
  split; [apply SetConsoleLevel_eq |]. split; [apply SetFileLevel_eq |].
  split; [exact Hinit |].
  unfold SetupLogging, bind. rewrite SetConsoleLevel_eq, SetFileLevel_eq. exact Hinit.
Qed.

(** ** Replacing the log file *)

(** A file that [logFile] does not name can never be closed: it stays
    as it is through any sequence of calls. *)
Lemma unnamed_handle_never_closed (fd : nat) (h : File) (cs : list call) (s : State) :
  logFile (vars s) ≠ Some fd →
  handles (world s) !! fd = Some h →
  ∃ s', run cs s = Ret tt s' ∧
        logFile (vars s') ≠ Some fd ∧ handles (world s') !! fd = Some h.
Proof.
  intros Hne Hh.
  apply (run_invariant
    (λ s', logFile (vars s') ≠ Some fd ∧ handles (world s') !! fd = Some h));
    [| by split].
  clear. intros s1 s2 (Hne & Hh)
    [Hh2 Hl Hc _ _|path Hh2 Hl Hc _ _|Hh2 Hl Hc _ _|Hc Hc' Hl Hh2 _ _].
  - by rewrite Hh2, Hl.
  - rewrite Hh2, Hl. split.
    + intros [= E]. apply lookup_lt_Some in Hh. lia.
    + by apply lookup_app_l_Some.
  - by rewrite Hh2, Hl.
  - rewrite Hh2, Hl. split; [done |].
    destruct (logFile (vars s1)) as [fd'|]; [| done].
    unfold close_handle. destruct (handles (world s1) !! fd') as [h'|] eqn:E; [| done].
    simpl. rewrite list_lookup_insert_ne; [done | congruence].
Qed.

(** After a second [SetLogFile], whether it succeeds or not, the file
    opened by the first one is still open, no call can close it any
    more, and two files are open if the second open succeeded. *)
Lemma SetLogFile_keeps_previous_open (before after : list call) (p q : string)
    (d : gmap string (list string)) (t : nat) :
  openable p = true →
  ∃ s0 s1 e s2 s3,
    run before (init_state d t) = Ret tt s0 ∧
    SetLogFile p s0 = Ret None s1 ∧
    logFile (vars s1) = Some (length (handles (world s0))) ∧
    SetLogFile q s1 = Ret e s2 ∧
    run after s2 = Ret tt s3 ∧
    handles (world s3) !! length (handles (world s0)) = Some (mkFile p 0).
Proof.
  intros Hp.
  destruct (run_total before (init_state d t)) as (s0 & Hr0).
  pose proof (SetLogFile_ok p s0 Hp) as H1.
  set (n := length (handles (world s0))) in *.
  set (s1 := mkState (set_fileLogger (Some (file_logger_on (Some n)))
                        (set_logFile (Some n) (vars s0))) (opened p (world s0))) in *.
  assert (Hat : handles (world s1) !! n = Some (mkFile p 0)).
  { simpl. rewrite lookup_app_r by (unfold n; lia). unfold n. by rewrite Nat.sub_diag. }
  assert (∃ e s2, SetLogFile q s1 = Ret e s2 ∧ logFile (vars s2) ≠ Some n ∧
                  handles (world s2) !! n = Some (mkFile p 0))
    as (e & s2 & H2 & Hne & Hh).
  { destruct (openable q) eqn:Hq.
    - do 2 eexists. split; [by apply SetLogFile_ok |]. simpl. split.
      + rewrite length_app. simpl. fold n. intros [= E]. lia.
      + by apply lookup_app_l_Some.
    - do 2 eexists. split; [by apply SetLogFile_fail |]. simpl. by split. }
  destruct (unnamed_handle_never_closed _ _ after s2 Hne Hh) as (s3 & H3 & _ & Hh3).
  by exists s0, s1, e, s2, s3.
Qed.

End Properties.

(** * The package on the concrete platform *)

(** C1.  [SetLogFile "a.log"] followed by [SetLogFile "b.log"] leaves two
    files open, the first of which no package variable names any more;
    a message logged next goes to b.log only, and [Close] then closes
    b.log and leaves a.log open: its handle is never released. *)
Theorem SetLogFile_twice_leaves_first_file_open :
  ∃ s2 s4,
    run [CSetLogFile "a.log"; CSetLogFile "b.log"] start = Ret tt s2 ∧
    handles (world s2) = [mkFile "a.log" 0; mkFile "b.log" 0] ∧
    open_count (world s2) = 2 ∧
    unreferenced 0 (vars s2) ∧
    run [CInfo "hi" []; CClose] s2 = Ret tt s4 ∧
    handles (world s4) = [mkFile "a.log" 0; mkFile "b.log" 1] ∧
    contents (world s4) "a.log" = [] ∧
    contents (world s4) "b.log" = ["T0 | INFO | hi" +:+ newline].
Proof.
  do 2 eexists. split; [vm_compute; reflexivity |].
  split; [reflexivity |]. split; [reflexivity |].
  split; [split; [done | by intros lg [= <-]] |].
  split; [vm_compute; reflexivity |].
  split; [reflexivity |]. split; vm_compute; reflexivity.
Qed.

(** The hypotheses of [nil_loggers_are_guarded] hold in the initial state. *)
Lemma nil_loggers_are_guarded_witness :
  consoleLogger (vars start) = None ∧
  fileLogger (vars start) = None ∧
  LogMessage "disk at 100%" ERROR [] start = Ret tt start.
Proof.
  split; [reflexivity |]. split; [reflexivity |].
  apply (nil_loggers_are_guarded "disk at 100%" ERROR [] start); reflexivity.
Defined.

(** [SetupLogging(INFO, DEBUG)] then [Info("x=%d", 42)]: the file gets
    [| INFO | x=42], the console the same text in blue with the reset. *)
Example setup_then_info :
  ∃ w, world_after [CSetupLogging INFO DEBUG; CInfo "x=%d" [AnyInt 42]] = Some w ∧
       contents w "/home/user/app/out.log" = ["T0 | INFO | x=42" +:+ newline] ∧
       stdout w = ["T1 " +:+ Blue +:+ "| INFO |" +:+ Reset +:+ " x=42" +:+ newline].
Proof. eexists. split; [vm_compute; reflexivity |]. split; vm_compute; reflexivity. Qed.

(** A lone percent sign: [Sprintf] would append a diagnostic, the
    package logs the template as it is. *)
Example percent_without_operands :
  Sprintf "100%" [] = "100%!(NOVERB)" ∧
  ∃ w, world_after [CSetConsoleLevel DEBUG; CFail "100%" []] = Some w ∧
       stdout w = ["T0 " +:+ Red +:+ "| FAIL |" +:+ Reset +:+ " 100%" +:+ newline].
Proof. split; [reflexivity |]. eexists. split; vm_compute; reflexivity. Qed.

(** A message at DEBUG under thresholds INFO (console) and DEBUG (file),
    and a message after [Close]: the closed file takes no more records. *)
Example thresholds_and_closed_file :
  ∃ w, world_after [CSetupLogging INFO DEBUG; CDebug "d" []; CClose; CInfo "late" []]
       = Some w ∧
       contents w "/home/user/app/out.log" = ["T0 | DEBUG | d" +:+ newline] ∧
       stdout w = ["T2 " +:+ Blue +:+ "| INFO |" +:+ Reset +:+ " late" +:+ newline].
Proof. eexists. split; [vm_compute; reflexivity |]. split; vm_compute; reflexivity. Qed.

(** * Further properties of the package *)

Section MoreProperties.
Context `{Platform}.

#[local] Arguments offered : simpl never.
#[local] Arguments printed : simpl never.

(** ** Where the default log file goes *)

Lemma append_String (c : ascii) (s t : string) : String c s +:+ t = String c (s +:+ t).
Proof. reflexivity. Qed.

Lemma prefix_spec (sub s : string) :
  String.prefix sub s = true ↔ ∃ post, s = sub +:+ post.
Proof.
  revert s. induction sub as [|a sub IH]; intros s.
  - split; [intros _; by exists s | intros _; by destruct s].
  - destruct s as [|b s].
    + split; [done | intros [post Hp]; by rewrite append_String in Hp].
    + simpl. destruct (ascii_dec a b) as [->|Hne].
      * rewrite IH. split; intros [post Hp]; exists post.
        -- by rewrite append_String, <- Hp.
        -- rewrite append_String in Hp. by injection Hp.
      * split; [done |]. intros [post Hp]. rewrite append_String in Hp.
        injection Hp as Hab _. congruence.
Qed.

Lemma Contains_eq (s substr : string) :
  Contains s substr
  = String.prefix substr s ||
    match s with
    | EmptyString => false
    | String _ rest => Contains rest substr
    end.
Proof. by destruct s. Qed.

(** [Contains s substr] holds exactly when [substr] occurs in [s]. *)
Lemma Contains_spec (s substr : string) :
  Contains s substr = true ↔ ∃ pre post, s = pre +:+ substr +:+ post.
Proof.
  split.
  - induction s as [|c s IH]; rewrite Contains_eq, orb_true_iff.
    + intros [Hp | Hf]; [| done]. apply prefix_spec in Hp as [post Hp].
      by exists EmptyString, post.
    + intros [Hp | Hc].
      * apply prefix_spec in Hp as [post Hp]. by exists EmptyString, post.
      * destruct (IH Hc) as (pre & post & ->). by exists (String c pre), post.
  - intros (pre & post & ->). induction pre as [|c pre IH].
    + rewrite Contains_eq. apply orb_true_iff. left.
      apply prefix_spec. by exists post.
    + rewrite append_String, Contains_eq, IH. apply orb_true_r.
Qed.

(** [getWorkingDir]: an error of [os.Executable] is returned with the
    empty directory; otherwise the result is that of [os.Getwd], its
    error included, exactly when [go-build] or [tmp] occurs somewhere
    in the path of the executable, and the directory of the executable
    with no error when neither occurs. *)
Theorem getWorkingDir_cases :
  (∀ exePath err, os_Executable = (exePath, Some err) →
     getWorkingDir = (EmptyString, Some err)) ∧
  (∀ exePath, os_Executable = (exePath, None) →
     (∃ pre post, exePath = pre +:+ "go-build" +:+ post ∨
                  exePath = pre +:+ "tmp" +:+ post) →
     getWorkingDir = os_Getwd) ∧
  (∀ exePath, os_Executable = (exePath, None) →
     ¬ (∃ pre post, exePath = pre +:+ "go-build" +:+ post ∨
                    exePath = pre +:+ "tmp" +:+ post) →
     getWorkingDir = (filepath_Dir exePath, None)).
Proof.
  unfold getWorkingDir. repeat split.
  - by intros exePath err ->.
  - intros exePath -> (pre & post & [Hg | Ht]).
    + assert (Contains exePath "go-build" = true) as ->
        by (apply Contains_spec; by exists pre, post).
      reflexivity.
    + assert (Contains exePath "tmp" = true) as ->
        by (apply Contains_spec; by exists pre, post).
      by rewrite orb_true_r.
  - intros exePath -> Hno.
    destruct (Contains exePath "go-build") eqn:Hg.
    { apply Contains_spec in Hg as (pre & post & Hg). exfalso. apply Hno. eauto. }
    destruct (Contains exePath "tmp") eqn:Ht.
    { apply Contains_spec in Ht as (pre & post & Ht). exfalso. apply Hno. eauto. }
    reflexivity.
Qed.

(** ** Nothing written is ever lost *)

Lemma grows_refl (w : World) : grows w w.
Proof. by repeat split. Qed.

Lemma grows_trans (w1 w2 w3 : World) : grows w1 w2 → grows w2 w3 → grows w1 w3.
Proof.
  intros (Hc1 & Hd1 & Ho1 & Ht1) (Hc2 & Hd2 & Ho2 & Ht2). repeat split.
  - intros path. etrans; [apply Hc1 | apply Hc2].
  - intros path Hs. by apply Hd2, Hd1.
  - etrans; [apply Ho1 | apply Ho2].
  - lia.
Qed.

Lemma grows_same_files (w w' : World) :
  disk w' = disk w → stdout w `prefix_of` stdout w' → clock w ≤ clock w' → grows w w'.
Proof.
  intros Hd Ho Ht. unfold grows, contents. rewrite Hd. by repeat split.
Qed.

Lemma contents_insert (w : World) (p q : string) (l : list string) (d : gmap string (list string)) :
  d = disk w →
  default [] (<[p := l]> d !! q) = if decide (p = q) then l else contents w q.
Proof.
  intros ->. unfold contents. rewrite lookup_insert. by destruct (decide (p = q)).
Qed.

Lemma printed_grows (lg : Logger) (text : string) (w : World) : grows w (printed lg text w).
Proof.
  unfold printed. destruct (lg_out lg) as [|[fd|]].
  - apply grows_same_files; simpl; [done | by apply prefix_app_r | lia].
  - destruct (handles w !! fd) as [h|]; [destruct (is_open h) |];
      try (apply grows_same_files; simpl; [done | done | lia]).
    repeat split; simpl; try done; try lia.
    + intros path. unfold contents at 2. simpl.
      rewrite (contents_insert w) by done. destruct (decide (f_path h = path)) as [<-|].
      * by apply prefix_app_r.
      * done.
    + intros path Hs. rewrite lookup_insert. by destruct (decide (f_path h = path)).
  - apply grows_same_files; simpl; [done | done | lia].
Qed.

Lemma offered_grows l minLevel level text (w : World) :
  grows w (offered l minLevel level text w).
Proof.
  unfold offered. destruct l as [lg|]; [| apply grows_refl].
  destruct (shouldLog level minLevel); [apply printed_grows | apply grows_refl].
Qed.

Lemma opened_contents (path q : string) (w : World) :
  contents (opened path w) q = contents w q.
Proof.
  unfold opened, contents. simpl. destruct (disk w !! path) as [l|] eqn:Hp; [done |].
  rewrite lookup_insert. destruct (decide (path = q)) as [<-|]; [| done].
  by rewrite Hp.
Qed.

Lemma opened_grows (path : string) (w : World) : grows w (opened path w).
Proof.
  repeat split; try done.
  - intros q. by rewrite opened_contents.
  - intros q Hs. unfold opened. simpl. destruct (disk w !! path); [done |].
    rewrite lookup_insert. by destruct (decide (path = q)).
Qed.

Lemma close_handle_grows (fd : nat) (w : World) : grows w (close_handle fd w).
Proof.
  unfold close_handle. destruct (handles w !! fd); [| apply grows_refl].
  by apply grows_same_files.
Qed.

Lemma LogMessage_grows format level args s :
  ∃ s', LogMessage format level args s = Ret tt s' ∧ grows (world s) (world s').
Proof.
  eexists. split; [apply LogMessage_eq |]. simpl.
  eapply grows_trans; apply offered_grows.
Qed.

Lemma SetLogFile_grows path s :
  ∃ e s', SetLogFile path s = Ret e s' ∧ grows (world s) (world s').
Proof.
  destruct (openable path) eqn:Hop; do 2 eexists.
  - split; [by apply SetLogFile_ok |]. apply opened_grows.
  - split; [by apply SetLogFile_fail |]. apply grows_refl.
Qed.

Lemma InitDefaultLogFile_grows s :
  ∃ e s', InitDefaultLogFile s = Ret e s' ∧ grows (world s) (world s').
Proof.
  unfold InitDefaultLogFile. destruct getWorkingDir as [dir [err|]].
  - do 2 eexists. split; [reflexivity |]. apply grows_refl.
  - apply SetLogFile_grows.
Qed.

Lemma exec_grows (c : call) (s : State) :
  ∃ s', exec c s = Ret tt s' ∧ grows (world s) (world s').
Proof.
  destruct c as [cl fl|l|l|p| | |f l a|f a|f a|f a|f a|f a]; simpl;
    try apply LogMessage_grows.
  - unfold SetupLogging, bind. rewrite SetConsoleLevel_eq, SetFileLevel_eq.
    match goal with |- context [InitDefaultLogFile ?s0] =>
      destruct (InitDefaultLogFile_grows s0) as (e & s' & -> & Hg) end.
    by exists s'.
  - eexists. split; [apply SetConsoleLevel_eq |]. apply grows_refl.
  - eexists. split; [apply SetFileLevel_eq |]. apply grows_refl.
  - unfold bind. destruct (SetLogFile_grows p s) as (e & s' & -> & Hg). by exists s'.
  - unfold bind. destruct (InitDefaultLogFile_grows s) as (e & s' & -> & Hg).
    by exists s'.
  - eexists. split; [apply Close_eq |].
    destruct (closeOnce (vars s)); [apply grows_refl |]. simpl.
    destruct (logFile (vars s)); [apply close_handle_grows | apply grows_refl].
Qed.

(** From any state, any sequence of calls returns and only adds to
    the world: what a file or standard output held is a prefix of what
    it holds afterwards (no record is removed, changed or reordered, no
    file truncated), no file disappears, and the clock does not go
    back. *)
Theorem records_are_only_appended (cs : list call) (s : State) :
  ∃ s', run cs s = Ret tt s' ∧
    (∀ path, contents (world s) path `prefix_of` contents (world s') path) ∧
    (∀ path, is_Some (disk (world s) !! path) → is_Some (disk (world s') !! path)) ∧
    stdout (world s) `prefix_of` stdout (world s') ∧
    clock (world s) ≤ clock (world s').
Proof.
  revert s. induction cs as [|c cs IH]; intros s.
  - exists s. split; [reflexivity |]. apply grows_refl.
  - destruct (exec_grows c s) as (s1 & He & Hg1).
    destruct (IH s1) as (s' & Hr & Hg2).
    exists s'. split; [simpl; unfold bind; by rewrite He |].
    by apply (grows_trans _ (world s1)).
Qed.

(** ** Opening the log file *)

(** [SetLogFile] never changes what any file holds, nor standard
    output, the clock, the thresholds, the console logger or the latch.
    On success it returns nil, the file exists afterwards, a new open
    handle is appended to the table and both [logFile] and the file
    logger are built on it.  On failure it returns the path error and
    the world is untouched, but [logFile] is nil afterwards while the
    file logger is the one that was there before. *)
Theorem SetLogFile_creates_and_never_truncates (path : string) (s : State) :
  ∃ e s',
    SetLogFile path s = Ret e s' ∧
    (∀ q, contents (world s') q = contents (world s) q) ∧
    stdout (world s') = stdout (world s) ∧
    clock (world s') = clock (world s) ∧
    fileLevel (vars s') = fileLevel (vars s) ∧
    consoleLevel (vars s') = consoleLevel (vars s) ∧
    consoleLogger (vars s') = consoleLogger (vars s) ∧
    closeOnce (vars s') = closeOnce (vars s) ∧
    (openable path = true →
       e = None ∧
       is_Some (disk (world s') !! path) ∧
       (∀ q, q ≠ path → disk (world s') !! q = disk (world s) !! q) ∧
       handles (world s') = handles (world s) ++ [mkFile path 0] ∧
       logFile (vars s') = Some (length (handles (world s))) ∧
       fileLogger (vars s')
       = Some (log_New (FileW (Some (length (handles (world s))))) EmptyString
                 (Z.lor (Z.lor Ldate Ltime) Lmicroseconds))) ∧
    (openable path = false →
       e = Some (PathError "open" path) ∧
       world s' = world s ∧
       logFile (vars s') = None ∧
       fileLogger (vars s') = fileLogger (vars s)).
Proof.
  destruct (openable path) eqn:Hop; do 2 eexists.
  - split; [by apply SetLogFile_ok |].
    split; [intros q; apply opened_contents |].
    do 6 (split; [reflexivity |]). split; [| done]. intros _.
    split; [reflexivity |]. simpl. repeat split.
    + destruct (disk (world s) !! path) eqn:Hp; [by rewrite Hp |].
      by rewrite lookup_insert_eq.
    + intros q Hq. destruct (disk (world s) !! path); [done |].
      by rewrite lookup_insert_ne.
  - split; [by apply SetLogFile_fail |]. by repeat split.
Qed.

(** ** Configuration *)

Lemma SetupLogging_unfold (cl fl : LogLevel) (s : State) :
  SetupLogging cl fl s
  = InitDefaultLogFile
      (mkState (set_fileLevel fl (set_consoleLogger (Some console_logger)
                                    (set_consoleLevel cl (vars s)))) (world s)).
Proof. unfold SetupLogging, bind. by rewrite SetConsoleLevel_eq, SetFileLevel_eq. Qed.

(** [SetupLogging] sets both thresholds and installs the console
    logger whether or not it returns an error; when it does return
    one, the world and the file logger are as before.  In any state the
    package can reach, a message at a level at or above the console
    threshold just set is therefore printed on standard output even
    after a failed [SetupLogging]. *)
Theorem SetupLogging_configures_console_even_on_error (cs : list call)
    (d : gmap string (list string)) (t : nat) (cl fl : LogLevel) :
  ∃ s e s',
    run cs (init_state d t) = Ret tt s ∧
    SetupLogging cl fl s = Ret e s' ∧
    consoleLevel (vars s') = cl ∧
    fileLevel (vars s') = fl ∧
    consoleLogger (vars s')
    = Some (log_New Stdout EmptyString (Z.lor (Z.lor Ldate Ltime) Lmicroseconds)) ∧
    (e ≠ None → world s' = world s ∧ fileLogger (vars s') = fileLogger (vars s)) ∧
    (∀ format L args, (cl <= L)%Z →
       ∃ s2 now, LogMessage format L args s' = Ret tt s2 ∧
         stdout (world s2)
         = stdout (world s')
           ++ [record_of console_logger now (console_line L (message_of format args))]).
Proof.
  destruct (run_wf cs d t) as (s & Hrun & Hwf).
  destruct (SetupLogging_handle_step cl fl s) as (e & s' & He & Hst).
  pose proof (wf_step s s' Hwf Hst) as (_ & _ & _ & _ & Hfl').
  exists s, e, s'. split; [exact Hrun |]. split; [exact He |].
  assert (Hv : consoleLevel (vars s') = cl ∧ fileLevel (vars s') = fl ∧
               consoleLogger (vars s') = Some console_logger ∧
               (e ≠ None → world s' = world s ∧ fileLogger (vars s') = fileLogger (vars s))).
  { rewrite SetupLogging_unfold in He. unfold InitDefaultLogFile in He.
    destruct getWorkingDir as [dir [err|]].
    - injection He as <- <-. by repeat split.
    - destruct (openable (filepath_Join dir "out.log")) eqn:Hop.
      + rewrite (SetLogFile_ok _ _ Hop) in He. injection He as <- <-. by repeat split.
      + rewrite (SetLogFile_fail _ _ Hop) in He. injection He as <- <-. by repeat split. }
  destruct Hv as (Hcl & Hfv & Hcon & Herr).
  do 4 (split; [assumption |]).
  intros format L args Hle. do 2 eexists. split; [apply LogMessage_eq |].
  cbn [vars world]. rewrite Hcon, Hcl.
  rewrite (offered_due console_logger) by (apply shouldLog_spec; lia).
  rewrite printed_console. cbn [stdout].
  by rewrite (offered_file_stdout _ _ _ _ _ (length (handles (world s')))).
Qed.

(** The three configuration calls can be made in any order: the six
    orders of [SetConsoleLevel a], [SetFileLevel b] and [SetLogFile p]
    end in the same state. *)
Theorem configuration_order_is_irrelevant (a b : LogLevel) (p : string) (s : State) :
  let o := run [CSetConsoleLevel a; CSetFileLevel b; CSetLogFile p] s in
  run [CSetConsoleLevel a; CSetLogFile p; CSetFileLevel b] s = o ∧
  run [CSetFileLevel b; CSetConsoleLevel a; CSetLogFile p] s = o ∧
  run [CSetFileLevel b; CSetLogFile p; CSetConsoleLevel a] s = o ∧
  run [CSetLogFile p; CSetConsoleLevel a; CSetFileLevel b] s = o ∧
  run [CSetLogFile p; CSetFileLevel b; CSetConsoleLevel a] s = o ∧
  ∃ s', o = Ret tt s'.
Proof.
  simpl. unfold bind.
  destruct (openable p) eqn:Hop;
    rewrite ?SetConsoleLevel_eq, ?SetFileLevel_eq,
      ?(SetLogFile_ok p _ Hop), ?(SetLogFile_fail p _ Hop),
      ?SetConsoleLevel_eq, ?SetFileLevel_eq,
      ?(SetLogFile_ok p _ Hop), ?(SetLogFile_fail p _ Hop),
      ?SetConsoleLevel_eq, ?SetFileLevel_eq,
      ?(SetLogFile_ok p _ Hop), ?(SetLogFile_fail p _ Hop);
    unfold ret; repeat split; by eexists.
Qed.

(** ** Level names *)

Lemma levelToString_unknown (level : LogLevel) :
  (level < DEBUG ∨ FAIL < level)%Z → levelToString level = "UNKNOWN".
Proof.
  unfold levelToString, DEBUG, INFO, ERROR, SUCCESS, FAIL. intros Hout.
  repeat match goal with
         | |- context [Z.eqb ?x ?y] => destruct (Z.eqb_spec x y); [lia |]
         end.
  reflexivity.
Qed.

(** Two levels have the same name exactly when they are the same
    level or both lie outside DEBUG..FAIL (where the name is UNKNOWN):
    the tag of a record tells the five declared levels apart. *)
Theorem levelToString_identifies_level (a b : LogLevel) :
  levelToString a = levelToString b ↔
  a = b ∨ ((a < DEBUG ∨ FAIL < a) ∧ (b < DEBUG ∨ FAIL < b))%Z.
Proof.
  assert (Hcases : ∀ l : LogLevel,
    l = 0%Z ∨ l = 1%Z ∨ l = 2%Z ∨ l = 3%Z ∨ l = 4%Z ∨ (l < DEBUG ∨ FAIL < l)%Z)
    by (intros l; unfold DEBUG, FAIL; lia).
  unfold DEBUG, FAIL in *.
  destruct (Hcases a) as [->|[->|[->|[->|[->|Ha]]]]];
    destruct (Hcases b) as [->|[->|[->|[->|[->|Hb]]]]];
    rewrite ?(levelToString_unknown a) by exact Ha;
    rewrite ?(levelToString_unknown b) by exact Hb;
    (split; [intros E; first [discriminate E | left; reflexivity | right; split; assumption]
            | intros [E | [E1 E2]]; first [reflexivity | discriminate E | lia]]).
Qed.

(** ** Both sinks at work *)

(** One message, the file logger writing to an open file and the
    console logger set: what each sink receives, by its threshold. *)
Lemma LogMessage_configured (format : string) (level : LogLevel) (args : list any)
    (s : State) (fd : nat) (h : File) :
  fileLogger (vars s) = Some (file_logger_on (Some fd)) →
  handles (world s) !! fd = Some h → is_open h = true →
  consoleLogger (vars s) = Some console_logger →
  let to_file := shouldLog level (fileLevel (vars s)) in
  let to_console := shouldLog level (consoleLevel (vars s)) in
  let now := clock (world s) in
  let now' := if to_file then S now else now in
  ∃ s', LogMessage format level args s = Ret tt s' ∧
    vars s' = vars s ∧
    handles (world s') = handles (world s) ∧
    contents (world s') (f_path h)
    = contents (world s) (f_path h)
      ++ (if to_file
          then [record_of (file_logger_on (Some fd)) now
                  (file_line level (message_of format args))]
          else []) ∧
    (∀ q, q ≠ f_path h → contents (world s') q = contents (world s) q) ∧
    stdout (world s')
    = stdout (world s)
      ++ (if to_console
          then [record_of console_logger now' (console_line level (message_of format args))]
          else []) ∧
    clock (world s') = if to_console then S now' else now'.
Proof.
  intros Hfl Hh Ho Hcl. cbv zeta.
  eexists. split; [apply LogMessage_eq |]. cbn [vars world].
  rewrite Hfl, Hcl. unfold offered.
  destruct (shouldLog level (fileLevel (vars s)));
    destruct (shouldLog level (consoleLevel (vars s)));
    rewrite ?(printed_file_open fd h) by done; rewrite ?printed_console;
    unfold contents; cbn [disk handles stdout clock];
    rewrite ?app_nil_r; repeat split; try done;
    try (by rewrite lookup_insert_eq);
    intros q Hq; by rewrite lookup_insert_ne.
Qed.

Lemma file_records_length fd level now ms :
  length (file_records fd level now ms) = length ms.
Proof. revert now. induction ms as [|m ms IH]; intros now; simpl; [done | by rewrite IH]. Qed.

Lemma console_records_length level now ms :
  length (console_records level now ms) = length ms.
Proof. revert now. induction ms as [|m ms IH]; intros now; simpl; [done | by rewrite IH]. Qed.

(** A batch of messages at a level that passes both thresholds, the
    log file being open and the console logger set: the run returns,
    changes no package variable and no handle, appends to the log file
    exactly one record per message, in call order, appends likewise one
    record per message to standard output, and touches no other file. *)
Theorem batch_is_recorded_in_order (level : LogLevel) (ms : list (string * list any))
    (s : State) (fd : nat) (h : File) :
  fileLogger (vars s) = Some (file_logger_on (Some fd)) →
  handles (world s) !! fd = Some h → is_open h = true →
  consoleLogger (vars s) = Some console_logger →
  shouldLog level (fileLevel (vars s)) = true →
  shouldLog level (consoleLevel (vars s)) = true →
  ∃ s', run (log_calls level ms) s = Ret tt s' ∧
    vars s' = vars s ∧
    handles (world s') = handles (world s) ∧
    contents (world s') (f_path h)
    = contents (world s) (f_path h) ++ file_records fd level (clock (world s)) ms ∧
    length (file_records fd level (clock (world s)) ms) = length ms ∧
    (∀ q, q ≠ f_path h → contents (world s') q = contents (world s) q) ∧
    stdout (world s') = stdout (world s) ++ console_records level (clock (world s)) ms ∧
    length (console_records level (clock (world s)) ms) = length ms ∧
    clock (world s') = clock (world s) + 2 * length ms.
Proof.
  revert s. induction ms as [|m ms IH]; intros s Hfl Hh Ho Hcl Hf Hc.
  - exists s. simpl. rewrite !app_nil_r. repeat split; try done; lia.
  - destruct (LogMessage_configured (fst m) level (snd m) s fd h Hfl Hh Ho Hcl)
      as (s1 & H1 & Hv & Hhs & Hct & Hoth & Hout & Hclk).
    rewrite Hf in Hct, Hout, Hclk. rewrite Hc in Hout, Hclk.
    destruct (IH s1) as (s' & Hr & Hv' & Hhs' & Hct' & _ & Hoth' & Hout' & _ & Hclk');
      try (rewrite ?Hv, ?Hhs; assumption).
    exists s'. simpl. unfold bind. rewrite H1. split; [exact Hr |].
    rewrite Hclk in Hct', Hout', Hclk'.
    repeat split.
    + congruence.
    + congruence.
    + rewrite Hct', Hct. by rewrite <- app_assoc.
    + by rewrite file_records_length.
    + intros q Hq. rewrite Hoth' by done. by apply Hoth.
    + rewrite Hout', Hout. by rewrite <- app_assoc.
    + by rewrite console_records_length.
    + rewrite Hclk'. simpl. lia.
Qed.

(** ** The file logger and [Close] *)

(** In every state the package can reach, a non-nil [logFile] is the
    file the file logger writes to. *)
Lemma logFile_is_the_loggers_file (cs : list call) (d : gmap string (list string))
    (t : nat) :
  ∃ s, run cs (init_state d t) = Ret tt s ∧ wf s ∧
       ∀ fd, logFile (vars s) = Some fd →
             fileLogger (vars s) = Some (file_logger_on (Some fd)).
Proof.
  destruct (run_invariant
    (λ s, wf s ∧ ∀ fd, logFile (vars s) = Some fd →
                       fileLogger (vars s) = Some (file_logger_on (Some fd))))
    with (cs := cs) (s := init_state d t) as (s & Hr & Hwf & Hlf).
  - intros s1 s2 (Hwf & Hlf) Hst. split; [by apply (wf_step s1) |].
    destruct Hst as [_ Hl _ Hf _|path _ Hl _ Hf _|_ Hl _ Hf _|_ _ Hl _ Hf _];
      rewrite Hl, Hf; try done. by intros fd [= <-].
  - split; [apply wf_init | done].
  - by exists s.
Qed.

(** [Close] closes the file but leaves [logFile] and the file logger
    in place: in any state the package can reach in which the latch
    is unset and [logFile] is non-nil, after [Close] the file logger is
    still set, yet a message at any level leaves every file as it is
    and returns normally, while the console sink prints as before. *)
Theorem logging_after_Close_skips_the_file (cs : list call)
    (d : gmap string (list string)) (t : nat)
    (format : string) (level : LogLevel) (args : list any) :
  ∃ s s1 s2,
    run cs (init_state d t) = Ret tt s ∧
    Close s = Ret tt s1 ∧
    LogMessage format level args s1 = Ret tt s2 ∧
    (closeOnce (vars s) = false → ∀ fd, logFile (vars s) = Some fd →
       logFile (vars s1) = Some fd ∧
       fileLogger (vars s1) = Some (file_logger_on (Some fd)) ∧
       (∃ h, handles (world s1) !! fd = Some h ∧ is_open h = false) ∧
       disk (world s2) = disk (world s1) ∧
       (shouldLog level (consoleLevel (vars s1)) = true →
        consoleLogger (vars s1) ≠ None →
        ∃ now, stdout (world s2)
          = stdout (world s1)
            ++ [record_of console_logger now (console_line level (message_of format args))])).
Proof.
  destruct (logFile_is_the_loggers_file cs d t) as (s & Hrun & Hwf & Hsame).
  exists s. do 2 eexists. split; [exact Hrun |]. split; [apply Close_eq |].
  split; [apply LogMessage_eq |]. intros Hc fd Hfd.
  destruct Hwf as (H0 & _ & Hlf & Hcon & _).
  destruct (lookup_lt_is_Some_2 (handles (world s)) fd (Hlf fd Hfd)) as [h Hh].
  rewrite Hc, Hfd, (close_handle_open _ _ _ Hh).
  cbn [vars world logFile fileLogger consoleLogger consoleLevel fileLevel set_closeOnce].
  rewrite (Hsame fd Hfd).
  set (hs := <[fd := mkFile (f_path h) (S (f_closes h))]> (handles (world s))).
  set (w1 := mkWorld (disk (world s)) hs (stdout (world s)) (clock (world s))).
  assert (Hclosed : hs !! fd = Some (mkFile (f_path h) (S (f_closes h)))).
  { apply list_lookup_insert_eq. by apply (lookup_lt_Some _ _ h). }
  assert (Hskip : ∀ text,
    offered (Some (file_logger_on (Some fd))) (fileLevel (vars s)) level text w1
    = if shouldLog level (fileLevel (vars s)) then tick w1 else w1).
  { intros text. unfold offered, printed. simpl. rewrite Hclosed. simpl.
    by destruct (shouldLog level (fileLevel (vars s))). }
  split; [done |]. split; [done |]. split; [by eexists |].
  rewrite Hskip. split.
  - rewrite offered_console_disk by exact Hcon.
    destruct (shouldLog level (fileLevel (vars s))); reflexivity.
  - intros Hs Hset.
    destruct (consoleLogger (vars s)) as [lg|] eqn:Hlg; [| done].
    rewrite (Hcon lg eq_refl).
    rewrite (offered_due console_logger) by exact Hs.
    rewrite printed_console. cbn [stdout].
    destruct (shouldLog level (fileLevel (vars s))); eexists; reflexivity.
Qed.


(** ** How many files are closed *)




(** ** The example program *)

(** One message of the example program: thresholds DEBUG for the file
    and INFO for the console, one open log file. *)
Lemma example_step (path format : string) (level : LogLevel) (args : list any)
    (s : State) :
  fileLogger (vars s) = Some (file_logger_on (Some 0)) →
  consoleLogger (vars s) = Some console_logger →
  fileLevel (vars s) = DEBUG → consoleLevel (vars s) = INFO →
  handles (world s) = [mkFile path 0] →
  shouldLog level DEBUG = true →
  ∃ s', LogMessage format level args s = Ret tt s' ∧
    vars s' = vars s ∧
    handles (world s') = [mkFile path 0] ∧
    contents (world s') path
    = contents (world s) path
      ++ [record_of (file_logger_on (Some 0)) (clock (world s))
            (file_line level (message_of format args))] ∧
    stdout (world s')
    = stdout (world s)
      ++ (if shouldLog level INFO
          then [record_of console_logger (S (clock (world s)))
                  (console_line level (message_of format args))]
          else []) ∧
    clock (world s')
    = if shouldLog level INFO then S (S (clock (world s))) else S (clock (world s)).
Proof.
  intros Hfl Hcl Hfv Hcv Hh Hpass.
  pose proof (LogMessage_configured format level args s 0 (mkFile path 0) Hfl) as Hstep.
  cbv zeta in Hstep. rewrite Hh, Hfv, Hcv, Hpass in Hstep.
  destruct Hstep as (s' & Hrun & Hv & Hh' & Hct & _ & Hout & Hclk); try done.
  by exists s'.
Qed.

(** [main] of logger_example.go, started with nothing configured.  If
    [SetupLogging] returns an error, [main] panics with it.  Otherwise
    it returns, the default log file received the five records in call
    order after what it held, standard output received the four
    records at INFO or above (not the DEBUG one), and the one file it
    opened is closed once when it exits. *)
Theorem example_main_outcome (d : gmap string (list string)) (t : nat) :
  (∃ e s1, SetupLogging INFO DEBUG (init_state d t) = Ret (Some e) s1 ∧
           example_main (init_state d t) = Panic (error_text e)) ∨
  (∃ dir s',
     getWorkingDir = (dir, None) ∧
     example_main (init_state d t) = Ret tt s' ∧
     handles (world s') = [mkFile (filepath_Join dir "out.log") 1] ∧
     contents (world s') (filepath_Join dir "out.log")
     = default [] (d !! filepath_Join dir "out.log")
       ++ [record_of (file_logger_on (Some 0)) t
             (file_line INFO "App started");
           record_of (file_logger_on (Some 0)) (t + 2)
             (file_line DEBUG (Sprintf "Some internal value: %d" [AnyInt 123]));
           record_of (file_logger_on (Some 0)) (t + 3)
             (file_line SUCCESS "Task completed successfully");
           record_of (file_logger_on (Some 0)) (t + 5)
             (file_line FAIL "Validation failed on field: email");
           record_of (file_logger_on (Some 0)) (t + 7)
             (file_line ERROR (Sprintf "Connection error: %v" [AnyString "timeout"]))] ∧
     stdout (world s')
     = [record_of console_logger (t + 1) (console_line INFO "App started");
        record_of console_logger (t + 4)
          (console_line SUCCESS "Task completed successfully");
        record_of console_logger (t + 6)
          (console_line FAIL "Validation failed on field: email");
        record_of console_logger (t + 8)
          (console_line ERROR (Sprintf "Connection error: %v" [AnyString "timeout"]))]).
Proof.
  unfold example_main, bind. rewrite SetupLogging_unfold. unfold InitDefaultLogFile.
  destruct getWorkingDir as [dir [err|]] eqn:Hgw.
  { left. by do 2 eexists. }
  destruct (openable (filepath_Join dir "out.log")) eqn:Hop.
  2: { left. rewrite (SetLogFile_fail _ _ Hop). by do 2 eexists. }
  right. rewrite (SetLogFile_ok _ _ Hop). exists dir.
  set (path := filepath_Join dir "out.log").
  match goal with |- context [Info _ _ ?s0] => set (s1 := s0) end.
  assert (Hfl : fileLogger (vars s1) = Some (file_logger_on (Some 0))) by reflexivity.
  assert (Hcl : consoleLogger (vars s1) = Some console_logger) by reflexivity.
  assert (Hfv : fileLevel (vars s1) = DEBUG) by reflexivity.
  assert (Hcv : consoleLevel (vars s1) = INFO) by reflexivity.
  assert (Hlf : logFile (vars s1) = Some 0) by reflexivity.
  assert (Hco : closeOnce (vars s1) = false) by reflexivity.
  assert (Hh : handles (world s1) = [mkFile path 0]) by reflexivity.
  assert (Hct : contents (world s1) path = default [] (d !! path))
    by apply opened_contents.
  assert (Hout : stdout (world s1) = []) by reflexivity.
  assert (Hclk : clock (world s1) = t) by reflexivity.
  clearbody s1. unfold Info, Debug, Success, Fail, Error.
  destruct (example_step path "App started" INFO [] s1)
    as (s2 & -> & Hv2 & Hh2 & Hct2 & Hout2 & Hclk2); try done.
  rewrite <- Hv2 in Hfl, Hcl, Hfv, Hcv, Hlf, Hco.
  destruct (example_step path "Some internal value: %d" DEBUG [AnyInt 123] s2)
    as (s3 & -> & Hv3 & Hh3 & Hct3 & Hout3 & Hclk3); try done.
  rewrite <- Hv3 in Hfl, Hcl, Hfv, Hcv, Hlf, Hco.
  destruct (example_step path "Task completed successfully" SUCCESS [] s3)
    as (s4 & -> & Hv4 & Hh4 & Hct4 & Hout4 & Hclk4); try done.
  rewrite <- Hv4 in Hfl, Hcl, Hfv, Hcv, Hlf, Hco.
  destruct (example_step path "Validation failed on field: email" FAIL [] s4)
    as (s5 & -> & Hv5 & Hh5 & Hct5 & Hout5 & Hclk5); try done.
  rewrite <- Hv5 in Hfl, Hcl, Hfv, Hcv, Hlf, Hco.
  destruct (example_step path "Connection error: %v" ERROR [AnyString "timeout"] s5)
    as (s6 & -> & Hv6 & Hh6 & Hct6 & Hout6 & Hclk6); try done.
  rewrite <- Hv6 in Hfl, Hcl, Hfv, Hcv, Hlf, Hco.
  eexists. split; [reflexivity |]. split; [apply Close_eq |].
  rewrite Hco, Hlf. cbn [vars world]. unfold close_handle. rewrite Hh6. simpl.
  change (shouldLog INFO INFO) with true in *.
  change (shouldLog DEBUG INFO) with false in *.
  change (shouldLog SUCCESS INFO) with true in *.
  change (shouldLog FAIL INFO) with true in *.
  change (shouldLog ERROR INFO) with true in *.
  rewrite app_nil_r in Hout3.
  split; [reflexivity |]. unfold contents in *. simpl. split.
  - rewrite Hct6, Hct5, Hct4, Hct3, Hct2, Hct, Hclk5, Hclk4, Hclk3, Hclk2, Hclk.
    rewrite <- !app_assoc. simpl. unfold message_of. simpl.
    by replace (t + 2) with (S (S t)) by lia;
       replace (t + 3) with (S (S (S t))) by lia;
       replace (t + 5) with (S (S (S (S (S t))))) by lia;
       replace (t + 7) with (S (S (S (S (S (S (S t))))))) by lia.
  - rewrite Hout6, Hout5, Hout4, Hout3, Hout2, Hout, Hclk5, Hclk4, Hclk3, Hclk2, Hclk.
    simpl. unfold message_of. simpl.
    by replace (t + 1) with (S t) by lia;
       replace (t + 4) with (S (S (S (S t)))) by lia;
       replace (t + 6) with (S (S (S (S (S (S t)))))) by lia;
       replace (t + 8) with (S (S (S (S (S (S (S (S t))))))))  by lia.
Qed.

(** ** Sinks that were never configured *)

Lemma close_handle_stdout fd w : stdout (close_handle fd w) = stdout w.
Proof. unfold close_handle. by destruct (handles w !! fd). Qed.

Lemma close_handle_disk fd w : disk (close_handle fd w) = disk w.
Proof. unfold close_handle. by destruct (handles w !! fd). Qed.

Lemma exec_without_console (c : call) (s : State) :
  configures_console c = false → wf s → consoleLogger (vars s) = None →
  ∃ s', exec c s = Ret tt s' ∧ wf s' ∧
        consoleLogger (vars s') = None ∧ stdout (world s') = stdout (world s).
Proof.
  intros Hc Hwf Hnil.
  destruct (exec_handle_step c s) as (s' & He & Hst).
  exists s'. split; [exact He |]. split; [by apply (wf_step s) |].
  destruct Hwf as (_ & _ & _ & _ & Hfl).
  assert (Hlog : ∀ f l a, LogMessage f l a s = Ret tt s' →
            consoleLogger (vars s') = None ∧ stdout (world s') = stdout (world s)).
  { intros f l a Hl. rewrite LogMessage_eq in Hl. injection Hl as <-. cbn [vars world].
    split; [exact Hnil |]. rewrite Hnil. unfold offered at 1.
    by apply (offered_file_stdout _ _ _ _ _ (length (handles (world s)))). }
  assert (Hopen : ∀ p e, SetLogFile p s = Ret e s' →
            consoleLogger (vars s') = None ∧ stdout (world s') = stdout (world s)).
  { intros p e Hp. destruct (openable p) eqn:Hop;
      [rewrite (SetLogFile_ok p s Hop) in Hp | rewrite (SetLogFile_fail p s Hop) in Hp];
      injection Hp as _ <-; by split. }
  destruct c as [cl fl|l|l|p| | |f l a|f a|f a|f a|f a|f a]; simpl in He, Hc;
    try discriminate Hc; try (by eapply Hlog).
  - rewrite SetFileLevel_eq in He. injection He as <-. by split.
  - unfold bind in He. destruct (SetLogFile p s) as [e s1|] eqn:Hp; [| done].
    injection He as ->. by eapply Hopen.
  - unfold bind, InitDefaultLogFile in He. destruct getWorkingDir as [dir [err|]].
    + injection He as <-. by split.
    + destruct (SetLogFile (filepath_Join dir "out.log") s) as [e s1|] eqn:Hp; [| done].
      injection He as ->. by eapply Hopen.
  - rewrite Close_eq in He. injection He as <-.
    destruct (closeOnce (vars s)); [by split |]. cbn [vars world]. split; [exact Hnil |].
    destruct (logFile (vars s)); [apply close_handle_stdout | reflexivity].
Qed.

(** As long as neither [SetConsoleLevel] nor [SetupLogging] has been
    called, the console logger is nil and nothing at all is written to
    standard output, whatever else is called, file logging included. *)
Theorem console_is_silent_until_configured (cs : list call)
    (d : gmap string (list string)) (t : nat) :
  forallb (λ c, negb (configures_console c)) cs = true →
  ∃ s, run cs (init_state d t) = Ret tt s ∧
       consoleLogger (vars s) = None ∧ stdout (world s) = [].
Proof.
  intros Hcs.
  assert (Hgen : ∀ s0, wf s0 → consoleLogger (vars s0) = None →
            ∃ s, run cs s0 = Ret tt s ∧ consoleLogger (vars s) = None ∧
                 stdout (world s) = stdout (world s0)).
  { induction cs as [|c cs IH]; intros s0 Hwf Hnil; [by exists s0 |].
    simpl in Hcs. apply andb_true_iff in Hcs as [Hc Hcs].
    apply negb_true_iff in Hc.
    destruct (exec_without_console c s0 Hc Hwf Hnil) as (s1 & He & Hwf1 & Hnil1 & Hout1).
    destruct (IH Hcs s1 Hwf1 Hnil1) as (s & Hr & Hn & Hout).
    exists s. simpl. unfold bind. rewrite He. split; [exact Hr |].
    split; [exact Hn | congruence]. }
  apply (Hgen (init_state d t)); [apply wf_init | reflexivity].
Qed.

Lemma exec_without_file (c : call) (s : State) :
  opens_file c = false → wf s → fileLogger (vars s) = None → logFile (vars s) = None →
  ∃ s', exec c s = Ret tt s' ∧ wf s' ∧
        fileLogger (vars s') = None ∧ logFile (vars s') = None ∧
        handles (world s') = handles (world s) ∧ disk (world s') = disk (world s).
Proof.
  intros Hc Hwf Hnil Hlf.
  destruct (exec_handle_step c s) as (s' & He & Hst).
  exists s'. split; [exact He |]. split; [by apply (wf_step s) |].
  destruct Hwf as (_ & _ & _ & Hcon & _).
  assert (Hlog : ∀ f l a, LogMessage f l a s = Ret tt s' →
            fileLogger (vars s') = None ∧ logFile (vars s') = None ∧
            handles (world s') = handles (world s) ∧ disk (world s') = disk (world s)).
  { intros f l a Hl. rewrite LogMessage_eq in Hl. injection Hl as <-. cbn [vars world].
    do 2 (split; [assumption |]). rewrite Hnil. unfold offered at 2 4.
    split; [apply offered_handles | by apply offered_console_disk]. }
  destruct c as [cl fl|l|l|p| | |f l a|f a|f a|f a|f a|f a]; simpl in He, Hc;
    try discriminate Hc; try (by eapply Hlog).
  - rewrite SetConsoleLevel_eq in He. injection He as <-. by repeat split.
  - rewrite SetFileLevel_eq in He. injection He as <-. by repeat split.
  - rewrite Close_eq in He. injection He as <-.
    destruct (closeOnce (vars s)); [by repeat split |]. cbn [vars world].
    rewrite Hlf. by repeat split.
Qed.

(** As long as none of [SetLogFile], [InitDefaultLogFile] and
    [SetupLogging] has been called, the file logger and [logFile] are
    nil, no file was opened, and the disk is exactly as it was at the
    start: logging and [Close] alone never create or write a file. *)
Theorem no_file_is_touched_until_one_is_opened (cs : list call)
    (d : gmap string (list string)) (t : nat) :
  forallb (λ c, negb (opens_file c)) cs = true →
  ∃ s, run cs (init_state d t) = Ret tt s ∧
       fileLogger (vars s) = None ∧ logFile (vars s) = None ∧
       handles (world s) = [] ∧ disk (world s) = d.
Proof.
  intros Hcs.
  assert (Hgen : ∀ s0, wf s0 → fileLogger (vars s0) = None → logFile (vars s0) = None →
            ∃ s, run cs s0 = Ret tt s ∧ fileLogger (vars s) = None ∧
                 logFile (vars s) = None ∧
                 handles (world s) = handles (world s0) ∧ disk (world s) = disk (world s0)).
  { induction cs as [|c cs IH]; intros s0 Hwf Hnil Hlf; [by exists s0 |].
    simpl in Hcs. apply andb_true_iff in Hcs as [Hc Hcs].
    apply negb_true_iff in Hc.
    destruct (exec_without_file c s0 Hc Hwf Hnil Hlf)
      as (s1 & He & Hwf1 & Hnil1 & Hlf1 & Hh1 & Hd1).
    destruct (IH Hcs s1 Hwf1 Hnil1 Hlf1) as (s & Hr & Hn & Hl & Hh & Hd).
    exists s. simpl. unfold bind. rewrite He. split; [exact Hr |].
    repeat split; congruence. }
  apply (Hgen (init_state d t)); [apply wf_init | reflexivity | reflexivity].
Qed.

End MoreProperties.

(** * Further properties on the concrete platform *)

(** The console at DEBUG and the log file app.log open, nothing else. *)
Definition configured : State :=
  match run [CSetConsoleLevel DEBUG; CSetLogFile "app.log"] start with
  | Ret _ s => s
  | Panic _ => start
  end.

(** Two messages, the second with an operand. *)
Definition two_messages : list (string * list any) :=
  [("started", []); ("x=%d", [AnyInt 42])].

(** The hypotheses of [batch_is_recorded_in_order] hold in [configured]
    for the two messages at INFO. *)
Lemma batch_is_recorded_in_order_witness :
  fileLogger (vars configured) = Some (file_logger_on (Some 0)) ∧
  handles (world configured) !! 0 = Some (mkFile "app.log" 0) ∧
  is_open (mkFile "app.log" 0) = true ∧
  consoleLogger (vars configured) = Some console_logger ∧
  shouldLog INFO (fileLevel (vars configured)) = true ∧
  shouldLog INFO (consoleLevel (vars configured)) = true ∧
  ∃ s', run (log_calls INFO two_messages) configured = Ret tt s' ∧
    vars s' = vars configured ∧
    handles (world s') = handles (world configured) ∧
    contents (world s') "app.log"
    = contents (world configured) "app.log"
      ++ file_records 0 INFO (clock (world configured)) two_messages ∧
    length (file_records 0 INFO (clock (world configured)) two_messages) = 2 ∧
    (∀ q, q ≠ "app.log" → contents (world s') q = contents (world configured) q) ∧
    stdout (world s')
    = stdout (world configured)
      ++ console_records INFO (clock (world configured)) two_messages ∧
    length (console_records INFO (clock (world configured)) two_messages) = 2 ∧
    clock (world s') = clock (world configured) + 4.
Proof.
  do 6 (split; [reflexivity |]).
  apply (batch_is_recorded_in_order INFO two_messages configured 0 (mkFile "app.log" 0));
    reflexivity.
Defined.


(** A run that logs to a file and closes it, without ever configuring
    the console. *)
Lemma console_is_silent_until_configured_witness :
  forallb (λ c, negb (configures_console c))
    [CSetLogFile "a.log"; CFail "x" []; CClose] = true ∧
  ∃ s, run [CSetLogFile "a.log"; CFail "x" []; CClose] (init_state ∅ 0) = Ret tt s ∧
       consoleLogger (vars s) = None ∧ stdout (world s) = [].
Proof.
  split; [reflexivity |].
  apply (console_is_silent_until_configured
           [CSetLogFile "a.log"; CFail "x" []; CClose] ∅ 0).
  reflexivity.
Defined.

(** A run that logs to the console and calls [Close], without ever
    opening a file. *)
Lemma no_file_is_touched_until_one_is_opened_witness :
  forallb (λ c, negb (opens_file c))
    [CSetConsoleLevel DEBUG; CSetFileLevel DEBUG; CInfo "x" []; CClose] = true ∧
  ∃ s, run [CSetConsoleLevel DEBUG; CSetFileLevel DEBUG; CInfo "x" []; CClose]
         (init_state ∅ 0) = Ret tt s ∧
       fileLogger (vars s) = None ∧ logFile (vars s) = None ∧
       handles (world s) = [] ∧ disk (world s) = ∅.
Proof.
  split; [reflexivity |].
  apply (no_file_is_touched_until_one_is_opened
           [CSetConsoleLevel DEBUG; CSetFileLevel DEBUG; CInfo "x" []; CClose] ∅ 0).
  reflexivity.
Defined.

(** Where nothing can be created, the example program panics with the
    error of the open; elsewhere it returns with its file closed. *)
Example example_main_on_both_platforms :
  @example_main readonly_platform start = Panic "open /root/app/out.log" ∧
  (handles ∘ world) <$> final (@example_main demo_platform start)
  = Some [mkFile "/home/user/app/out.log" 1].
Proof. split; vm_compute; reflexivity. Qed.

(** The executable of a [go run] lives under a go-build directory, so
    the working directory is used; an installed binary gives its own
    directory, unless its path happens to contain [tmp]. *)
Example getWorkingDir_on_the_platform :
  @getWorkingDir demo_platform = ("/home/user/app", None) ∧
  Contains "/usr/local/bin/app" "go-build" || Contains "/usr/local/bin/app" "tmp" = false ∧
  Contains "/opt/tmpl/bin/app" "go-build" || Contains "/opt/tmpl/bin/app" "tmp" = true.
Proof. repeat split; vm_compute; reflexivity. Qed.
